(** * JobPostingForm: the validation schema and the form controller

    A shallow embedding of [src/components/JobPostingForm.tsx]: the zod
    schema [formSchema], the react-hook-form state behind [useForm], the
    [showCustomAge] flag, the benefit check boxes, the deadline picker and
    the submit handler.

    Conventions.
    - A JavaScript string is a [string]; one [ascii] stands for one code
      unit, so [String.length] is the [length] zod compares.
    - A JavaScript [Date] is its time value, a [Z] of milliseconds; a local
      calendar day has [msPerDay] milliseconds (no clock changes).
    - [undefined] is [None]. *)

From Stdlib Require Import ZArith Lia Permutation Ascii String.
From stdpp Require Import gmap strings list pretty.

Local Open Scope string_scope.
Local Open Scope list_scope.

(** ** Regular expressions of the shape [^ a1{l1,h1} ... an{ln,hn} $] *)

Module RegExp.

(** An atom is a literal character or the class [\d]. *)
Inductive Atom : Type :=
| Lit (c : ascii)
| Digit.

(** Without the [u] flag [\d] is exactly the code units [0x30 .. 0x39]. *)
Definition is_digit (c : ascii) : bool :=
  let n := N_of_ascii c in
  ((48 <=? n)%N && (n <=? 57)%N)%bool.

Definition atom_test (a : Atom) (c : ascii) : bool :=
  match a with
  | Lit x => Ascii.eqb x c
  | Digit => is_digit c
  end.

(** [a{lo,hi}]; a bare atom is [a{1,1}]. *)
Record Term : Type := mkTerm { atom : Atom; lo : nat; hi : nat }.

Definition once (c : ascii) : Term := mkTerm (Lit c) 1 1.

(** Backtracking matcher of one quantified atom, greedy as in JavaScript:
    it first tries to take one more character, then to stop here.  [k] is
    the rest of the pattern. *)
Fixpoint match_repeat (a : Atom) (lo hi : nat)
         (k : list ascii -> bool) (s : list ascii) : bool :=
  match hi with
  | O => Nat.eqb lo 0 && k s
  | S hi' =>
      match s with
      | c :: s' =>
          (atom_test a c && match_repeat a (Nat.pred lo) hi' k s')
          || (Nat.eqb lo 0 && k s)
      | [] => Nat.eqb lo 0 && k s
      end
  end.

Definition at_end (s : list ascii) : bool :=
  match s with [] => true | _ :: _ => false end.

(** [^ ts $]: the match starts at index 0 and [$] (no [m] flag) holds at
    the end of the input only. *)
Definition test (ts : list Term) (s : string) : bool :=
  fold_right (fun t k => match_repeat (atom t) (lo t) (hi t) k) at_end ts
             (list_ascii_of_string s).

End RegExp.

(** ** The part of zod the schema uses *)

Module Zod.

(** zod's parse status: [dirty] keeps parsing, [aborted] is [INVALID]. *)
Inductive ParseStatus : Type := valid | dirty | aborted.

Definition merge (a b : ParseStatus) : ParseStatus :=
  match a, b with
  | aborted, _ | _, aborted => aborted
  | dirty, _ | _, dirty => dirty
  | valid, valid => valid
  end.

Inductive IssueCode : Type :=
| invalid_type | too_small | too_big | invalid_string | custom.

Record ZodIssue : Type := mkIssue
  { code : IssueCode; path : list string; message : string }.

Definition ParseReturn : Type := ParseStatus * list ZodIssue.

Definition OK : ParseReturn := (valid, []).

(** [isValid(result)]: the parse succeeds exactly on the status [valid]. *)
Definition isValid (r : ParseReturn) : bool :=
  match fst r with valid => true | _ => false end.

(** [z.string().min(n, msg)] on a string input. *)
Definition string_min (n : nat) (msg : string) (p : list string)
           (s : string) : ParseReturn :=
  if (String.length s <? n)%nat
  then (dirty, [mkIssue too_small p msg]) else OK.

(** [z.string().regex(re, msg)] on a string input. *)
Definition string_regex (re : list RegExp.Term) (msg : string)
           (p : list string) (s : string) : ParseReturn :=
  if RegExp.test re s then OK else (dirty, [mkIssue invalid_string p msg]).

(** zod's default messages for [min] and [max] on a number. *)
Definition number_min_message (m : Z) : string :=
  String.append "Number must be greater than or equal to " (pretty m).
Definition number_max_message (m : Z) : string :=
  String.append "Number must be less than or equal to " (pretty m).

(** [z.number().min(a).max(b).optional()]: [undefined] is accepted; on a
    number every failing check adds an issue and parsing goes on. *)
Definition number_min_max_optional (a b : Z) (p : list string)
           (v : option Z) : ParseReturn :=
  match v with
  | None => OK
  | Some n =>
      let i1 := if (n <? a)%Z then [mkIssue too_small p (number_min_message a)] else [] in
      let i2 := if (b <? n)%Z then [mkIssue too_big p (number_max_message b)] else [] in
      match i1 ++ i2 with
      | [] => OK
      | issues => (dirty, issues)
      end
  end.

(** [z.date({ required_error })]: [ZodDate] has no check here, so any date
    is accepted; a missing value is a type failure, reported with
    [required_error], and a type failure returns [INVALID], the aborted
    status. *)
Definition date (required_error : string) (p : list string)
           (v : option Z) : ParseReturn :=
  match v with
  | None => (aborted, [mkIssue invalid_type p required_error])
  | Some _ => OK
  end.

(** [ZodObject]: the fields are parsed in the order of the shape, their
    issues are collected and their statuses merged. *)
Definition object (fields : list ParseReturn) : ParseReturn :=
  (foldr merge valid (fst <$> fields), concat (snd <$> fields)).

(** [schema.refine(check, { message, path })], a [ZodEffects]: the inner
    schema is parsed first; when it aborted the result is [INVALID] as it is
    and the refinement is not run; otherwise the refinement is run on the
    value and a failure adds one issue at [path]. *)
Definition refine (inner : ParseReturn) (check : bool)
           (msg : string) (p : list string) : ParseReturn :=
  match fst inner with
  | aborted => inner
  | st =>
      if check then inner
      else (merge st dirty, snd inner ++ [mkIssue custom p msg])
  end.

(** A parse result is coherent when it is valid exactly if it has no
    issue; zod's [parse] relies on it. *)
Definition coherent (r : ParseReturn) : Prop :=
  isValid r = true ↔ snd r = [].

End Zod.

(** ** The schema *)

(** [/^09\d{7,9}$/] *)
Definition viber_regex : list RegExp.Term :=
  [RegExp.once "0"; RegExp.once "9"; RegExp.mkTerm RegExp.Digit 7 9].

Definition viber_message : string :=
  "Viber number must start with 09 and be valid".

(** The [viberNumber] entry of [formSchema]. *)
Definition viberNumber_schema (s : string) : Zod.ParseReturn :=
  Zod.string_regex viber_regex viber_message ["viberNumber"] s.

(** The rule in the spec's words: the literal prefix [09], then 7 to 9 more
    digits. *)
Definition decimal_digit (c : ascii) : bool :=
  existsb (Ascii.eqb c)
    ["0"; "1"; "2"; "3"; "4"; "5"; "6"; "7"; "8"; "9"]%char.

Definition viber_spec (s : string) : bool :=
  match s with
  | String "0" (String "9" rest) =>
      forallb decimal_digit (list_ascii_of_string rest)
      && (7 <=? String.length rest)%nat && (String.length rest <=? 9)%nat
  | _ => false
  end.

(** The form values, [FormValues = z.infer<typeof formSchema>], as
    react-hook-form holds them. *)
Inductive AgeRequirement : Type := Any | Age18_35 | Custom.

Record FormValues : Type := mkFormValues
  { jobTitle : string;
    company : string;
    location : string;
    jobDescription : string;
    salary : option string;
    ageRequirement : AgeRequirement;
    ageFrom : option Z;
    ageTo : option Z;
    benefits : list string;
    applicationDeadline : option Z;
    viberNumber : string }.

Definition age_range_message : string :=
  "Invalid age range. 'From' age must be less than or equal to 'To' age".

Definition deadline_required : string := "Application deadline is required".

(** [z.object({ ... })]: one entry per key of the shape, in its order.
    [salary] ([z.string().optional()]), [ageRequirement] (an enum, typed
    here) and [benefits] (an array of strings) accept every value of their
    type. *)
Definition formSchema_shape (data : FormValues) : list Zod.ParseReturn :=
  [ Zod.string_min 3 "Job title must be at least 3 characters"
      ["jobTitle"] (jobTitle data);
    Zod.string_min 2 "Company name must be at least 2 characters"
      ["company"] (company data);
    Zod.string_min 2 "Location is required" ["location"] (location data);
    Zod.string_min 20 "Job description must be at least 20 characters"
      ["jobDescription"] (jobDescription data);
    Zod.OK (* salary *);
    Zod.OK (* ageRequirement *);
    Zod.number_min_max_optional 18 100 ["ageFrom"] (ageFrom data);
    Zod.number_min_max_optional 18 100 ["ageTo"] (ageTo data);
    Zod.OK (* benefits *);
    Zod.date deadline_required ["applicationDeadline"]
      (applicationDeadline data);
    viberNumber_schema (viberNumber data) ].

(** The function given to [.refine]. *)
Definition age_range_ok (data : FormValues) : bool :=
  match ageRequirement data with
  | Custom =>
      match ageFrom data, ageTo data with
      | Some f, Some t => (f <=? t)%Z
      | _, _ => false
      end
  | _ => true
  end.

Definition formSchema (data : FormValues) : Zod.ParseReturn :=
  Zod.refine (Zod.object (formSchema_shape data)) (age_range_ok data)
             age_range_message ["ageTo"].

(** ** The resolver *)

Record FieldError : Type := mkFieldError
  { type : Zod.IssueCode; error_message : string }.

(** [parseErrorSchema] of [zodResolver]: the issues are read in order and
    the first issue of a path gives the error of that field. *)
Fixpoint parseErrorSchema (zodErrors : list Zod.ZodIssue)
         (errors : gmap string FieldError) : gmap string FieldError :=
  match zodErrors with
  | [] => errors
  | e :: rest =>
      let _path := String.concat "." (Zod.path e) in
      parseErrorSchema rest
        match errors !! _path with
        | None => <[_path := mkFieldError (Zod.code e) (Zod.message e)]> errors
        | Some _ => errors
        end
  end.

(** [zodResolver(formSchema)]: the parsed values, or the field errors.  The
    parse error is caught here, nothing is thrown to the form. *)
Definition resolver (values : FormValues)
  : FormValues + gmap string FieldError :=
  match formSchema values with
  | (Zod.valid, _) => inl values
  | (_, issues) => inr (parseErrorSchema issues ∅)
  end.

(** ** The component *)

Definition benefitsOptions : list (string * string) :=
  [ ("no-resume", "No Resume Needed (Walk-in Interview)");
    ("no-experience", "No Experience Required");
    ("seniors-welcome", "Seniors Welcome");
    ("training-provided", "Training Provided");
    ("flexible-hours", "Flexible Working Hours");
    ("immediate-start", "Immediate Start");
    ("students-ok", "Students OK") ].

(** [onSuccess?: () => void]: whether the caller supplied the callback. *)
Record JobPostingFormProps : Type := mkProps { onSuccess : bool }.

(** What the component does to the outside. *)
Inductive Effect : Type :=
| ConsoleLog (data : FormValues)
| Toast (title description : string)
| OnSuccess.

(** The state of a mounted component: the form values and the errors of the
    last submission (react-hook-form), the [useState] flag, and the effects
    so far.  [useForm] is called without [shouldUnregister], so the value of
    a field that is not rendered stays in [values].  [errors] is the map the
    last submission stored: what react-hook-form does to the errors of a
    field that is edited afterwards is not part of this state, and nothing
    below reads [errors] after an edit. *)
Record FormState : Type := mkFormState
  { values : FormValues;
    errors : gmap string FieldError;
    showCustomAge : bool;
    effects : list Effect }.

Definition defaultValues : FormValues :=
  {| jobTitle := ""; company := ""; location := ""; jobDescription := "";
     salary := Some ""; ageRequirement := Any;
     ageFrom := None; ageTo := None; benefits := [];
     applicationDeadline := None; viberNumber := "" |}.

(** The first render: [useState(false)] and [useForm({ defaultValues })]. *)
Definition mount : FormState :=
  {| values := defaultValues; errors := ∅;
     showCustomAge := false; effects := [] |}.

Definition set_values (v : FormValues) (st : FormState) : FormState :=
  {| values := v; errors := errors st;
     showCustomAge := showCustomAge st; effects := effects st |}.

(** [field.onChange] of each field. *)
Inductive TextField : Type :=
| JobTitle | Company | Location | JobDescription | Salary | ViberNumber.

Definition set_text (f : TextField) (s : string) (d : FormValues) : FormValues :=
  {| jobTitle := match f with JobTitle => s | _ => jobTitle d end;
     company := match f with Company => s | _ => company d end;
     location := match f with Location => s | _ => location d end;
     jobDescription :=
       match f with JobDescription => s | _ => jobDescription d end;
     salary := match f with Salary => Some s | _ => salary d end;
     ageRequirement := ageRequirement d;
     ageFrom := ageFrom d; ageTo := ageTo d; benefits := benefits d;
     applicationDeadline := applicationDeadline d;
     viberNumber := match f with ViberNumber => s | _ => viberNumber d end |}.

Definition set_ageRequirement (v : AgeRequirement) (d : FormValues) : FormValues :=
  {| jobTitle := jobTitle d; company := company d; location := location d;
     jobDescription := jobDescription d; salary := salary d;
     ageRequirement := v;
     ageFrom := ageFrom d; ageTo := ageTo d; benefits := benefits d;
     applicationDeadline := applicationDeadline d;
     viberNumber := viberNumber d |}.

Definition set_ageFrom (v : option Z) (d : FormValues) : FormValues :=
  {| jobTitle := jobTitle d; company := company d; location := location d;
     jobDescription := jobDescription d; salary := salary d;
     ageRequirement := ageRequirement d;
     ageFrom := v; ageTo := ageTo d; benefits := benefits d;
     applicationDeadline := applicationDeadline d;
     viberNumber := viberNumber d |}.

Definition set_ageTo (v : option Z) (d : FormValues) : FormValues :=
  {| jobTitle := jobTitle d; company := company d; location := location d;
     jobDescription := jobDescription d; salary := salary d;
     ageRequirement := ageRequirement d;
     ageFrom := ageFrom d; ageTo := v; benefits := benefits d;
     applicationDeadline := applicationDeadline d;
     viberNumber := viberNumber d |}.

Definition set_benefits (v : list string) (d : FormValues) : FormValues :=
  {| jobTitle := jobTitle d; company := company d; location := location d;
     jobDescription := jobDescription d; salary := salary d;
     ageRequirement := ageRequirement d;
     ageFrom := ageFrom d; ageTo := ageTo d; benefits := v;
     applicationDeadline := applicationDeadline d;
     viberNumber := viberNumber d |}.

Definition set_applicationDeadline (v : option Z) (d : FormValues) : FormValues :=
  {| jobTitle := jobTitle d; company := company d; location := location d;
     jobDescription := jobDescription d; salary := salary d;
     ageRequirement := ageRequirement d;
     ageFrom := ageFrom d; ageTo := ageTo d; benefits := benefits d;
     applicationDeadline := v;
     viberNumber := viberNumber d |}.

(** [onValueChange] of the radio group: [field.onChange(value)], then
    [setShowCustomAge(value === "custom")]. *)
Definition onValueChange (value : AgeRequirement) (st : FormState) : FormState :=
  {| values := set_ageRequirement value (values st);
     errors := errors st;
     showCustomAge := match value with Custom => true | _ => false end;
     effects := effects st |}.

(** [parseInt(e.target.value) || undefined] of the two age inputs, from the
    result of [parseInt] ([None] is [NaN]): [NaN] and [0] are falsy. *)
Definition age_onChange (parsed : option Z) : option Z :=
  match parsed with
  | Some 0%Z => None
  | Some n => Some n
  | None => None
  end.

(** [field.value?.includes(benefit.id)] *)
Definition includes (value : list string) (id : string) : bool :=
  bool_decide (id ∈ value).

(** [onCheckedChange] of a benefit check box. *)
Definition onCheckedChange (id : string) (checked : bool)
           (value : list string) : list string :=
  if checked then value ++ [id]
  else filter (λ v, v ≠ id) value.

(** A click on the check box of [id]: the box is controlled by
    [checked={includes}], so it reports the opposite of what it shows. *)
Definition toggle (id : string) (value : list string) : list string :=
  onCheckedChange id (negb (includes value id)) value.

(** Dates. *)
Definition msPerDay : Z := 86400000.

(** The calendar's cell of a day: the day at 00:00 local time. *)
Definition startOfDay (day : Z) : Z := day * msPerDay.

(** [maxDate.setDate(maxDate.getDate() + 60)]: 60 calendar days later, at the
    same time of day. *)
Definition maxDate (rendered : Z) : Z := rendered + 60 * msPerDay.

(** [disabled={(date) => date < new Date() || date > maxDate}] *)
Definition calendar_disabled (now maxDate date : Z) : bool :=
  (date <? now)%Z || (maxDate <? date)%Z.

(** [onSubmit]: log, toast, [form.reset()], [onSuccess?.()]. *)
Definition onSubmit (props : JobPostingFormProps) (data : FormValues)
           (st : FormState) : FormState :=
  {| values := defaultValues;
     errors := ∅;
     showCustomAge := showCustomAge st;
     effects :=
       effects st
       ++ [ConsoleLog data;
           Toast "Job Posted Successfully!"
                 "Your job posting has been submitted."]
       ++ (if onSuccess props then [OnSuccess] else []) |}.

(** [form.handleSubmit(onSubmit)]: the resolver runs first; [onSubmit] is
    called with the parsed values only when there is no error, otherwise the
    errors are stored and nothing else changes. *)
Definition handleSubmit (props : JobPostingFormProps) (st : FormState) : FormState :=
  match resolver (values st) with
  | inl data => onSubmit props data st
  | inr errs =>
      {| values := values st; errors := errs;
         showCustomAge := showCustomAge st; effects := effects st |}
  end.

(** The browser's own check of [<Input type="number" min={18} max={100}>]:
    an empty input is in order, a number must lie within [min] and [max]. *)
Definition input_in_range (min max : Z) (value : option Z) : bool :=
  match value with
  | None => true
  | Some n => (min <=? n)%Z && (n <=? max)%Z
  end.

(** The [<form>] has no [noValidate]: on a click on "Post Job" the browser
    checks the inputs it renders first and does not send the submit event
    while one of them is out of range.  Only the two age inputs carry a
    constraint, and they are rendered under [showCustomAge].  (An age input
    can also show a text that [age_onChange] does not keep, a 0 or a
    fraction; the browser may withhold the event for that text too, which
    the form values do not tell.) *)
Definition submit_withheld (st : FormState) : bool :=
  showCustomAge st
  && negb (input_in_range 18 100 (ageFrom (values st))
           && input_in_range 18 100 (ageTo (values st))).

(** What the user can do.  The age inputs exist only while [showCustomAge]
    holds and there is one check box per entry of [benefitsOptions].
    [PickDay rendered now day] is a click, at the time [now], on the cell of
    [day] in the calendar, [rendered] being the time of the render that
    computed [maxDate]: a disabled cell reports nothing, the cell of the
    selected day reports [undefined], any other cell reports its day. *)
Inductive Event : Type :=
| TypeText (f : TextField) (s : string)
| SelectAgeRequirement (v : AgeRequirement)
| TypeAgeFrom (parsed : option Z)
| TypeAgeTo (parsed : option Z)
| ClickBenefit (id : string)
| PickDay (rendered now day : Z)
| Submit.

Definition step (props : JobPostingFormProps) (st : FormState) (e : Event) : FormState :=
  match e with
  | TypeText f s => set_values (set_text f s (values st)) st
  | SelectAgeRequirement v => onValueChange v st
  | TypeAgeFrom parsed =>
      if showCustomAge st
      then set_values (set_ageFrom (age_onChange parsed) (values st)) st
      else st
  | TypeAgeTo parsed =>
      if showCustomAge st
      then set_values (set_ageTo (age_onChange parsed) (values st)) st
      else st
  | ClickBenefit id =>
      if bool_decide (id ∈ benefitsOptions.*1)
      then set_values
             (set_benefits (toggle id (benefits (values st))) (values st)) st
      else st
  | PickDay rendered now day =>
      if calendar_disabled now (maxDate rendered) (startOfDay day)
      then st
      else if bool_decide
                (applicationDeadline (values st) = Some (startOfDay day))
           then set_values (set_applicationDeadline None (values st)) st
           else set_values
                  (set_applicationDeadline (Some (startOfDay day))
                                           (values st)) st
  | Submit => if submit_withheld st then st else handleSubmit props st
  end.

Definition run (props : JobPostingFormProps) (events : list Event) : FormState :=
  foldl (step props) mount events.

Definition reachable (props : JobPostingFormProps) (st : FormState) : Prop :=
  ∃ events, run props events = st.

(** The age-range inputs are rendered under [{showCustomAge && ...}]. *)
Definition age_range_visible (st : FormState) : bool := showCustomAge st.

(** A draft that passes every rule, used in the examples below. *)
Definition sample_draft : FormValues :=
  {| jobTitle := "Sales Representative"; company := "Acme";
     location := "Yangon, Myanmar";
     jobDescription := "Sell the products of the company to shops.";
     salary := Some ""; ageRequirement := Any;
     ageFrom := None; ageTo := None; benefits := ["no-resume"];
     applicationDeadline := Some (startOfDay 20010);
     viberNumber := "0912345678" |}.

(** ** Notions used in the statements *)

Definition in_age_bounds (v : option Z) : bool :=
  match v with
  | None => true
  | Some n => (18 <=? n)%Z && (n <=? 100)%Z
  end.

Definition present {A} (v : option A) : bool :=
  match v with Some _ => true | None => false end.

(** The rules of the single fields other than the two ages. *)
Definition other_fields_ok (d : FormValues) : bool :=
  (3 <=? String.length (jobTitle d))%nat
  && (2 <=? String.length (company d))%nat
  && (2 <=? String.length (location d))%nat
  && (20 <=? String.length (jobDescription d))%nat
  && present (applicationDeadline d)
  && viber_spec (viberNumber d).

(** The window in the spec's words, on calendar days: strictly after today
    and at most 60 days after today. *)
Definition deadline_window_spec (today day : Z) : bool :=
  (today <? day)%Z && (day <=? today + 60)%Z.

Definition age_range_issue : Zod.ZodIssue :=
  Zod.mkIssue Zod.custom ["ageTo"] age_range_message.

(** Every issue a field of the shape can raise. *)
Definition field_issues : list Zod.ZodIssue :=
  [ Zod.mkIssue Zod.too_small ["jobTitle"]
      "Job title must be at least 3 characters";
    Zod.mkIssue Zod.too_small ["company"]
      "Company name must be at least 2 characters";
    Zod.mkIssue Zod.too_small ["location"] "Location is required";
    Zod.mkIssue Zod.too_small ["jobDescription"]
      "Job description must be at least 20 characters";
    Zod.mkIssue Zod.too_small ["ageFrom"] (Zod.number_min_message 18);
    Zod.mkIssue Zod.too_big ["ageFrom"] (Zod.number_max_message 100);
    Zod.mkIssue Zod.too_small ["ageTo"] (Zod.number_min_message 18);
    Zod.mkIssue Zod.too_big ["ageTo"] (Zod.number_max_message 100);
    Zod.mkIssue Zod.invalid_type ["applicationDeadline"] deadline_required;
    Zod.mkIssue Zod.invalid_string ["viberNumber"] viber_message ].

Definition issue_key (i : Zod.ZodIssue) : string :=
  String.concat "." (Zod.path i).

(** The errors react-hook-form shows for a draft. *)
Definition errors_of (d : FormValues) : gmap string FieldError :=
  parseErrorSchema (snd (formSchema d)) ∅.

(** The keys of the form. *)
Definition field_names : list string :=
  [ "jobTitle"; "company"; "location"; "jobDescription"; "salary";
    "ageRequirement"; "ageFrom"; "ageTo"; "benefits";
    "applicationDeadline"; "viberNumber" ].

(** How often the completion callback was called. *)
Fixpoint callback_calls (l : list Effect) : nat :=
  match l with
  | [] => 0
  | OnSuccess :: l' => S (callback_calls l')
  | _ :: l' => callback_calls l'
  end.

(** The age inputs are shown exactly when "custom" is the selection. *)
Definition visible_iff_custom (st : FormState) : Prop :=
  age_range_visible st = true ↔ ageRequirement (values st) = Custom.

(** The radio group is set to each of [others] in turn and then to
    "custom", with no other edit in between. *)
Definition reselect_custom (props : JobPostingFormProps) (st : FormState)
           (others : list AgeRequirement) : FormState :=
  foldl (step props) st
        ((SelectAgeRequirement <$> others) ++ [SelectAgeRequirement Custom]).

(** A session that posts a job with a custom age range. *)
Definition custom_posting : list Event :=
  [ SelectAgeRequirement Custom;
    TypeAgeFrom (Some 20%Z);
    TypeAgeTo (Some 30%Z);
    TypeText JobTitle "Sales Representative";
    TypeText Company "Acme";
    TypeText Location "Yangon, Myanmar";
    TypeText JobDescription "Sell the products of the company to shops.";
    PickDay (startOfDay 20000 + 43200000) (startOfDay 20000 + 43200000)
            20010;
    TypeText ViberNumber "0912345678";
    Submit ].

(** The same session goes on after the job was posted: the user starts
    another posting and has so far entered a title that is too short, a
    company and one benefit. *)
Definition edited_after_posting : FormState :=
  run (mkProps true)
      (custom_posting
       ++ [ TypeText JobTitle "Co";
            TypeText Company "Acme";
            ClickBenefit "no-resume" ]).

(** ** The hosting page and notions of the further properties *)

(** [FindJobs] renders [<JobPostingForm />]: no [onSuccess] is passed. *)
Definition FindJobs_props : JobPostingFormProps := mkProps false.

(** What one accepted submission does to the outside, in order. *)
Definition post_effects (props : JobPostingFormProps) (data : FormValues)
  : list Effect :=
  [ConsoleLog data;
   Toast "Job Posted Successfully!" "Your job posting has been submitted."]
  ++ (if onSuccess props then [OnSuccess] else []).

(** The drafts that were logged, oldest first. *)
Fixpoint logged (l : list Effect) : list FormValues :=
  match l with
  | [] => []
  | ConsoleLog d :: l' => d :: logged l'
  | _ :: l' => logged l'
  end.

(** How often the form was submitted in a session. *)
Fixpoint submissions (events : list Event) : nat :=
  match events with
  | [] => 0
  | Submit :: events' => S (submissions events')
  | _ :: events' => submissions events'
  end.

(** The value the radio group was last set to, if it was set at all. *)
Definition last_selection (events : list Event) : option AgeRequirement :=
  foldl (λ acc e, match e with SelectAgeRequirement v => Some v | _ => acc end)
        None events.

(** The error a list of issues gives the key [k]: that of the first issue
    with this key. *)
Definition to_error (i : Zod.ZodIssue) : FieldError :=
  mkFieldError (Zod.code i) (Zod.message i).

Fixpoint first_error (k : string) (issues : list Zod.ZodIssue)
  : option FieldError :=
  match issues with
  | [] => None
  | i :: rest =>
      if decide (issue_key i = k) then Some (to_error i)
      else first_error k rest
  end.

(** The current text of a text field. *)
Definition get_text (f : TextField) (d : FormValues) : string :=
  match f with
  | JobTitle => jobTitle d
  | Company => company d
  | Location => location d
  | JobDescription => jobDescription d
  | Salary => default "" (salary d)
  | ViberNumber => viberNumber d
  end.

(** The keys an error can be stored under. *)
Definition error_keys : list string :=
  [ "jobTitle"; "company"; "location"; "jobDescription";
    "ageFrom"; "ageTo"; "applicationDeadline"; "viberNumber" ].

(** What a session has done to the outside: one block per logged draft. *)
Definition posted_only (props : JobPostingFormProps) (st : FormState)
           (n : nat) : Prop :=
  effects st = concat (post_effects props <$> logged (effects st))
  ∧ Forall (λ d, Zod.isValid (formSchema d) = true) (logged (effects st))
  ∧ (length (logged (effects st)) ≤ n)%nat.

(** Two states that differ at most in the calls of the callback. *)
Definition same_but_callbacks (st st' : FormState) : Prop :=
  values st = values st' ∧ errors st = errors st'
  ∧ showCustomAge st = showCustomAge st'
  ∧ logged (effects st) = logged (effects st').

(** The age inputs have never been shown and hold nothing. *)
Definition ages_untouched (st : FormState) : Prop :=
  showCustomAge st = false ∧ ageRequirement (values st) ≠ Custom
  ∧ ageFrom (values st) = None ∧ ageTo (values st) = None.

(** The check boxes of [ids] are clicked one after the other. *)
Definition clicks (ids : list string) (value : list string) : list string :=
  foldl (λ v id, toggle id v) value ids.


(** * Properties *)

(** ** The regular expression *)

Section RegExpFacts.
Import RegExp.

(** A quantified atom followed by [$] takes the whole rest of the input. *)
Lemma match_repeat_at_end a hi : ∀ lo s,
  (lo ≤ hi)%nat →
  match_repeat a lo hi at_end s
  = forallb (atom_test a) s
    && (lo <=? length s)%nat && (length s <=? hi)%nat.
Proof.
  induction hi as [|hi IH]; intros lo s Hle.
  - assert (lo = 0%nat) as -> by lia. destruct s as [|c s]; simpl.
    + reflexivity.
    + now rewrite andb_false_r.
  - destruct s as [|c s]; simpl.
    + destruct lo; reflexivity.
    + rewrite IH by lia. destruct lo as [|lo]; simpl.
      * now rewrite orb_false_r, !andb_assoc.
      * now rewrite orb_false_r, !andb_assoc.
Qed.

(** A literal character: [c{1,1}]. *)
Lemma match_once c k s :
  match_repeat (Lit c) 1 1 k s
  = match s with
    | x :: s' => Ascii.eqb c x && k s'
    | [] => false
    end.
Proof.
  destruct s as [|x s]; simpl; [reflexivity|].
  now rewrite orb_false_r.
Qed.

(** [\d] is the ten decimal digits. *)
Lemma is_digit_decimal c : is_digit c = decimal_digit c.
Proof. destruct c as [[] [] [] [] [] [] [] []]; reflexivity. Qed.

End RegExpFacts.

Lemma forallb_pointwise {A} (f g : A → bool) (l : list A) :
  (∀ x, f x = g x) → forallb f l = forallb g l.
Proof. intros E. induction l as [|x l IH]; simpl; [|rewrite E, IH]; reflexivity. Qed.

Lemma length_list_ascii_of_string s :
  length (list_ascii_of_string s) = String.length s.
Proof. induction s as [|c s IH]; simpl; congruence. Qed.

(** The pattern of the source and the rule in the spec's words agree on
    every string. *)
Lemma viber_regex_spec s : RegExp.test viber_regex s = viber_spec s.
Proof.
  unfold RegExp.test, viber_regex. cbn [fold_right RegExp.atom RegExp.lo RegExp.hi RegExp.once].
  rewrite match_once.
  destruct s as [|c0 s]; [reflexivity|]. cbn [list_ascii_of_string].
  destruct (Ascii.eqb_spec "0" c0) as [<-|Hc0]; cycle 1.
  { simpl. destruct c0 as [[] [] [] [] [] [] [] []]; try reflexivity.
    now contradict Hc0. }
  rewrite andb_true_l, match_once.
  destruct s as [|c1 s]; [reflexivity|]. cbn [list_ascii_of_string].
  destruct (Ascii.eqb_spec "9" c1) as [<-|Hc1]; cycle 1.
  { simpl. destruct c1 as [[] [] [] [] [] [] [] []]; try reflexivity.
    now contradict Hc1. }
  rewrite andb_true_l, match_repeat_at_end by lia.
  rewrite length_list_ascii_of_string. cbn [viber_spec].
  f_equal. f_equal. apply forallb_pointwise, is_digit_decimal.
Qed.

(** ** zod: when a parse is valid *)

Section ZodFacts.
Import Zod.

Lemma isValid_merge a b i j k :
  isValid (merge a b, i) = isValid (a, j) && isValid (b, k).
Proof. now destruct a, b. Qed.

Lemma isValid_object fields :
  isValid (object fields) = forallb isValid fields.
Proof.
  induction fields as [|[st i] fs IH]; [reflexivity|].
  cbn [forallb]. rewrite <- IH. unfold object. cbn [fmap list_fmap foldr fst].
  apply isValid_merge.
Qed.

Lemma isValid_refine inner check msg p :
  isValid (refine inner check msg p) = isValid inner && check.
Proof. destruct inner as [[] i], check; reflexivity. Qed.

Lemma isValid_string_min n msg p s :
  isValid (string_min n msg p s) = (n <=? String.length s)%nat.
Proof.
  unfold string_min.
  destruct (Nat.ltb_spec (String.length s) n), (Nat.leb_spec n (String.length s));
    try reflexivity; lia.
Qed.

Lemma isValid_string_regex re msg p s :
  isValid (string_regex re msg p s) = RegExp.test re s.
Proof. unfold string_regex. now destruct (RegExp.test re s). Qed.

Lemma isValid_number a b p v :
  isValid (number_min_max_optional a b p v)
  = match v with
    | None => true
    | Some n => (a <=? n)%Z && (n <=? b)%Z
    end.
Proof.
  destruct v as [n|]; [|reflexivity]. unfold number_min_max_optional.
  destruct (Z.ltb_spec n a), (Z.ltb_spec b n),
    (Z.leb_spec a n), (Z.leb_spec n b); try reflexivity; lia.
Qed.

Lemma isValid_date msg p v :
  isValid (date msg p v) = match v with Some _ => true | None => false end.
Proof. now destruct v. Qed.

Lemma coherent_OK : coherent OK.
Proof. split; reflexivity. Qed.

Lemma coherent_string_min n msg p s : coherent (string_min n msg p s).
Proof.
  unfold string_min. destruct (_ <? _)%nat; [|apply coherent_OK].
  split; discriminate.
Qed.

Lemma coherent_string_regex re msg p s : coherent (string_regex re msg p s).
Proof.
  unfold string_regex. destruct (RegExp.test re s); [apply coherent_OK|].
  split; discriminate.
Qed.

Lemma coherent_number a b p v : coherent (number_min_max_optional a b p v).
Proof.
  destruct v as [n|]; [|apply coherent_OK]. unfold number_min_max_optional.
  destruct (n <? a)%Z, (b <? n)%Z; simpl;
    (apply coherent_OK || (split; discriminate)).
Qed.

Lemma coherent_date msg p v : coherent (date msg p v).
Proof. destruct v; [apply coherent_OK|]. split; discriminate. Qed.

Lemma coherent_object fields :
  Forall coherent fields → coherent (object fields).
Proof.
  unfold coherent. rewrite isValid_object.
  induction 1 as [|r fs Hr _ IH]; [split; reflexivity|].
  cbn [forallb]. rewrite andb_true_iff, Hr, IH.
  unfold object. cbn [fmap list_fmap concat snd]. split.
  - intros [E1 E2]. cbn [snd] in E2. now rewrite E1, E2.
  - intros H. now apply app_eq_nil in H.
Qed.

Lemma coherent_refine inner check msg p :
  coherent inner → coherent (refine inner check msg p).
Proof.
  unfold coherent. rewrite isValid_refine, andb_true_iff.
  destruct inner as [st i]. unfold refine, isValid; simpl.
  intros H. destruct st, check; simpl in *; split;
    try tauto; try (intros []; discriminate).
  - intros E. now destruct (app_eq_nil _ _ E).
  - intros E. now destruct (app_eq_nil _ _ E).
Qed.

End ZodFacts.

(** ** The schema: which drafts pass *)

Lemma formSchema_valid d :
  Zod.isValid (formSchema d)
  = other_fields_ok d
    && in_age_bounds (ageFrom d) && in_age_bounds (ageTo d)
    && age_range_ok d.
Proof.
  unfold formSchema, formSchema_shape, viberNumber_schema.
  rewrite isValid_refine, isValid_object. cbn [forallb].
  rewrite !isValid_string_min, !isValid_number, isValid_date,
    isValid_string_regex, viber_regex_spec.
  unfold other_fields_ok, in_age_bounds, present.
  change (Zod.isValid Zod.OK) with true.
  destruct (3 <=? _)%nat, (2 <=? String.length (company d))%nat,
    (2 <=? String.length (location d))%nat, (20 <=? _)%nat,
    (applicationDeadline d), (viber_spec _), (age_range_ok d);
    simpl; rewrite ?andb_true_r, ?andb_false_r; reflexivity.
Qed.

Lemma formSchema_coherent d : Zod.coherent (formSchema d).
Proof.
  apply coherent_refine, coherent_object.
  unfold formSchema_shape, viberNumber_schema.
  repeat (apply Forall_cons_2;
          [ first [ apply coherent_OK | apply coherent_string_min
                  | apply coherent_number | apply coherent_date
                  | apply coherent_string_regex ] | ]).
  apply Forall_nil_2.
Qed.

(** ** The contact number *)

(** C10: the [viberNumber] rule accepts a string exactly when it is the
    prefix [09] followed by 7 to 9 more digits, so an accepted number has 9
    to 11 characters and a draft passes only with such a number;
    [0912345678] and [091234567] are accepted, [09123456] and [08123456789]
    are rejected. *)
Theorem viberNumber_accepts_exactly_the_pattern :
  (∀ s, Zod.isValid (viberNumber_schema s) = viber_spec s)
  ∧ (∀ s, Zod.isValid (viberNumber_schema s) = true →
          (9 ≤ String.length s ≤ 11)%nat)
  ∧ (∀ d, Zod.isValid (formSchema d) = true →
          viber_spec (viberNumber d) = true)
  ∧ Zod.isValid (viberNumber_schema "0912345678") = true
  ∧ Zod.isValid (viberNumber_schema "091234567") = true
  ∧ Zod.isValid (viberNumber_schema "09123456") = false
  ∧ Zod.isValid (viberNumber_schema "08123456789") = false.
Proof.
  assert (E : ∀ s, Zod.isValid (viberNumber_schema s) = viber_spec s).
  { intros s. unfold viberNumber_schema.
    now rewrite isValid_string_regex, viber_regex_spec. }
  split; [exact E|]. split; [|split].
  - intros s. rewrite E. unfold viber_spec.
    destruct s as [|c0 [|c1 rest]]; try discriminate.
    + destruct c0 as [[] [] [] [] [] [] [] []]; discriminate.
    + destruct c0 as [[] [] [] [] [] [] [] []]; try discriminate.
      destruct c1 as [[] [] [] [] [] [] [] []]; try discriminate.
      rewrite !andb_true_iff, !Nat.leb_le. cbn [String.length]. lia.
  - intros d. rewrite formSchema_valid. unfold other_fields_ok.
    rewrite !andb_true_iff. tauto.
  - repeat split; reflexivity.
Qed.

(** ** The application deadline *)

(** C1, as stated, fails: the deadline of [sample_draft] is day 20010; on
    that very day it is outside the window, and a deadline 61 days ahead is
    outside it too, yet validation accepts both drafts. *)
Lemma deadline_outside_window_is_accepted :
  applicationDeadline sample_draft = Some (startOfDay 20010)
  ∧ deadline_window_spec 20010 20010 = false
  ∧ Zod.isValid (formSchema sample_draft) = true
  ∧ deadline_window_spec 20010 20071 = false
  ∧ Zod.isValid
      (formSchema
         (set_applicationDeadline (Some (startOfDay 20071)) sample_draft))
    = true.
Proof. repeat split; reflexivity. Qed.

(** C1, amended: validation accepts every deadline that is present,
    whatever its date, and rejects only a missing one; the window is
    enforced where the day is picked.  [maxDate] is computed when the
    component renders, on the day [rday], not after [today]: at any time
    [now] of [today] after midnight the calendar leaves a day selectable
    exactly when it is after today, at most 60 days after today and at most
    60 days after [rday].  When the render was today these are exactly the
    days of the window; when it was on an earlier day the last days of the
    window are disabled as well. *)
Theorem deadline_checked_by_the_calendar_only (today rday tr tn : Z) :
  (rday ≤ today)%Z →
  (0 ≤ tr < msPerDay)%Z →
  (0 < tn < msPerDay)%Z →
  (∀ t, Zod.date deadline_required ["applicationDeadline"] (Some t) = Zod.OK)
  ∧ (∀ d t t',
       Zod.isValid (formSchema (set_applicationDeadline (Some t) d))
       = Zod.isValid (formSchema (set_applicationDeadline (Some t') d)))
  ∧ (∀ d, Zod.isValid (formSchema (set_applicationDeadline None d)) = false)
  ∧ (∀ day,
       calendar_disabled (startOfDay today + tn)
                         (maxDate (startOfDay rday + tr)) (startOfDay day)
       = negb (deadline_window_spec today day && (day <=? rday + 60)%Z))
  ∧ (rday = today →
     ∀ day,
       calendar_disabled (startOfDay today + tn)
                         (maxDate (startOfDay rday + tr)) (startOfDay day)
       = negb (deadline_window_spec today day))
  ∧ ((rday < today)%Z →
     calendar_disabled (startOfDay today + tn)
                       (maxDate (startOfDay rday + tr))
                       (startOfDay (today + 60))
     = true).
Proof.
  intros Hrd Hr Hn.
  assert (Hcal : ∀ day,
             calendar_disabled (startOfDay today + tn)
                               (maxDate (startOfDay rday + tr))
                               (startOfDay day)
             = negb (deadline_window_spec today day
                     && (day <=? rday + 60)%Z)).
  { intros day.
    unfold calendar_disabled, maxDate, startOfDay, deadline_window_spec,
      msPerDay in *.
    destruct (Z.ltb_spec (day * 86400000) (today * 86400000 + tn)),
      (Z.ltb_spec (rday * 86400000 + tr + 60 * 86400000) (day * 86400000)),
      (Z.ltb_spec today day), (Z.leb_spec day (today + 60)),
      (Z.leb_spec day (rday + 60));
      simpl; try reflexivity; lia. }
  split; [reflexivity|]. split; [|split; [|split; [exact Hcal|split]]].
  - intros d t t'. rewrite !formSchema_valid. reflexivity.
  - intros d. rewrite formSchema_valid. unfold other_fields_ok. simpl.
    now rewrite !andb_false_r.
  - intros -> day. rewrite Hcal. unfold deadline_window_spec.
    destruct (today <? day)%Z, (day <=? today + 60)%Z; reflexivity.
  - intros Hlt. rewrite Hcal.
    destruct (Z.leb_spec (today + 60) (rday + 60)); [lia|].
    now rewrite andb_false_r.
Qed.

Lemma deadline_checked_by_the_calendar_only_witness :
  calendar_disabled (startOfDay 20000 + 43200000)
                    (maxDate (startOfDay 20000 + 43200000)) (startOfDay 20000)
  = true
  ∧ calendar_disabled (startOfDay 20000 + 43200000)
                      (maxDate (startOfDay 20000 + 43200000)) (startOfDay 20060)
    = false
  ∧ calendar_disabled (startOfDay 20000 + 43200000)
                      (maxDate (startOfDay 20000 + 43200000)) (startOfDay 20061)
    = true
  ∧ calendar_disabled (startOfDay 20001 + 43200000)
                      (maxDate (startOfDay 20000 + 43200000)) (startOfDay 20061)
    = true.
Proof.
  assert (H1 : (0 ≤ 43200000 < msPerDay)%Z) by (unfold msPerDay; lia).
  assert (H2 : (0 < 43200000 < msPerDay)%Z) by (unfold msPerDay; lia).
  pose proof (deadline_checked_by_the_calendar_only
                20000 20000 43200000 43200000 (Z.le_refl _) H1 H2)
    as (_ & _ & _ & H & _).
  assert (H3 : (20000 ≤ 20001)%Z) by lia.
  pose proof (deadline_checked_by_the_calendar_only
                20001 20000 43200000 43200000 H3 H1 H2)
    as (_ & _ & _ & H' & _).
  rewrite !H, H'. repeat split; reflexivity.
Defined.

(** ** The two ages *)

(** C3, as stated, fails: with "any" selected and every other field in
    order, an age below 18 left in [ageFrom] makes validation fail, with an
    error on [ageFrom]. *)
Lemma stale_age_out_of_bounds_is_rejected :
  ageRequirement (set_ageFrom (Some 5%Z) sample_draft) = Any
  ∧ other_fields_ok (set_ageFrom (Some 5%Z) sample_draft) = true
  ∧ in_age_bounds (ageTo (set_ageFrom (Some 5%Z) sample_draft)) = true
  ∧ formSchema (set_ageFrom (Some 5%Z) sample_draft)
    = (Zod.dirty,
       [Zod.mkIssue Zod.too_small ["ageFrom"]
                    "Number must be greater than or equal to 18"]).
Proof. repeat split; reflexivity. Qed.

(** C3, amended: when [ageRequirement] is "any" or "18-35" the cross-field
    rule is not applied, so whether [ageFrom] and [ageTo] are present and
    how they compare is ignored; validation succeeds exactly when the other
    fields satisfy their rules and each of the two ages, if present, lies in
    18..100. *)
Theorem ages_only_bounded_when_not_custom d :
  ageRequirement d ≠ Custom →
  Zod.isValid (formSchema d)
  = other_fields_ok d && in_age_bounds (ageFrom d) && in_age_bounds (ageTo d).
Proof.
  intros H. rewrite formSchema_valid. unfold age_range_ok.
  destruct (ageRequirement d); [| |congruence]; apply andb_true_r.
Qed.

Lemma ages_only_bounded_when_not_custom_witness :
  Zod.isValid
    (formSchema
       (set_ageRequirement Age18_35
          (set_ageFrom (Some 50%Z) (set_ageTo (Some 20%Z) sample_draft))))
  = true.
Proof.
  rewrite (ages_only_bounded_when_not_custom
             (set_ageRequirement Age18_35
                (set_ageFrom (Some 50%Z) (set_ageTo (Some 20%Z) sample_draft))));
    [reflexivity | discriminate].
Defined.

(** ** The issues of the schema *)

Section IssueFacts.
Import Zod.

Lemma merge_aborted a b :
  merge a b = aborted ↔ a = aborted ∨ b = aborted.
Proof. destruct a, b; simpl; intuition discriminate. Qed.

Lemma string_min_not_aborted n msg p s : fst (string_min n msg p s) ≠ aborted.
Proof. unfold string_min. now destruct (_ <? _)%nat. Qed.

Lemma string_regex_not_aborted re msg p s :
  fst (string_regex re msg p s) ≠ aborted.
Proof. unfold string_regex. now destruct (RegExp.test re s). Qed.

Lemma number_not_aborted a b p v :
  fst (number_min_max_optional a b p v) ≠ aborted.
Proof.
  destruct v as [n|]; [|discriminate]. unfold number_min_max_optional.
  now destruct (n <? a)%Z, (b <? n)%Z.
Qed.

(** Only a missing deadline aborts the parse of the object. *)
Lemma object_aborted d :
  fst (object (formSchema_shape d)) = aborted ↔ applicationDeadline d = None.
Proof.
  unfold object, formSchema_shape, viberNumber_schema.
  cbn [fmap list_fmap foldr fst]. rewrite !merge_aborted.
  pose proof (string_min_not_aborted 3) as H3.
  pose proof (string_min_not_aborted 2) as H2.
  pose proof (string_min_not_aborted 20) as H20.
  pose proof number_not_aborted as Hn.
  pose proof string_regex_not_aborted as Hr.
  destruct (applicationDeadline d); simpl; split;
    try discriminate; try tauto.
  intros H. repeat destruct H as [H|H];
    first [ discriminate H | now apply H3 in H | now apply H2 in H
          | now apply H20 in H | now apply Hn in H | now apply Hr in H ].
Qed.

(** The issues of a draft: those of its fields, in the order of the shape,
    then the one of the refinement when it ran and failed. *)
Lemma formSchema_issues d :
  snd (formSchema d)
  = concat (formSchema_shape d).*2
    ++ (if present (applicationDeadline d) && negb (age_range_ok d)
        then [age_range_issue] else []).
Proof.
  pose proof (object_aborted d) as Hab.
  unfold formSchema, refine.
  change (concat (formSchema_shape d).*2)
    with (snd (object (formSchema_shape d))).
  destruct (object (formSchema_shape d)) as [st issues].
  cbn [fst snd] in *.
  destruct st, (applicationDeadline d); cbn [present andb];
    try (destruct Hab as [Hab _]; discriminate (Hab eq_refl));
    try (destruct Hab as [_ Hab]; discriminate (Hab eq_refl));
    destruct (age_range_ok d); cbn [negb snd];
    rewrite ?app_nil_r; reflexivity.
Qed.

Lemma string_min_issues n msg p s i :
  i ∈ snd (string_min n msg p s) → i = mkIssue too_small p msg.
Proof.
  unfold string_min. destruct (_ <? _)%nat; cbn [snd OK].
  - now intros ->%list_elem_of_singleton.
  - now intros ?%elem_of_nil.
Qed.

Lemma string_regex_issues re msg p s i :
  i ∈ snd (string_regex re msg p s) → i = mkIssue invalid_string p msg.
Proof.
  unfold string_regex. destruct (RegExp.test re s); cbn [snd OK].
  - now intros ?%elem_of_nil.
  - now intros ->%list_elem_of_singleton.
Qed.

Lemma number_issues a b p v i :
  i ∈ snd (number_min_max_optional a b p v) →
  i = mkIssue too_small p (number_min_message a)
  ∨ i = mkIssue too_big p (number_max_message b).
Proof.
  destruct v as [n|]; [|now intros ?%elem_of_nil].
  unfold number_min_max_optional.
  destruct (n <? a)%Z, (b <? n)%Z; cbn [snd OK app];
    rewrite ?elem_of_cons, ?elem_of_nil; tauto.
Qed.

Lemma date_issues msg p v i :
  i ∈ snd (date msg p v) → i = mkIssue invalid_type p msg.
Proof.
  destruct v; cbn [date snd OK].
  - now intros ?%elem_of_nil.
  - now intros ->%list_elem_of_singleton.
Qed.

Lemma shape_issues_known d i :
  i ∈ concat (formSchema_shape d).*2 → i ∈ field_issues.
Proof.
  unfold formSchema_shape, viberNumber_schema.
  cbn [fmap list_fmap concat]. rewrite !elem_of_app.
  intros H. unfold field_issues.
  destruct H as [H|[H|[H|[H|[H|[H|[H|[H|[H|[H|[H|H]]]]]]]]]]];
    first [ apply string_min_issues in H as ->
          | apply number_issues in H as [-> | ->]
          | apply date_issues in H as ->
          | apply string_regex_issues in H as ->
          | now apply elem_of_nil in H ];
    repeat constructor.
Qed.

End IssueFacts.

(** ** The errors of the resolver *)

Lemma parseErrorSchema_keeps issues : ∀ (acc : gmap string FieldError) k e,
  acc !! k = Some e → parseErrorSchema issues acc !! k = Some e.
Proof.
  induction issues as [|i rest IH]; intros acc k e Hk; [exact Hk|].
  cbn [parseErrorSchema]. apply IH.
  destruct (acc !! String.concat "." (Zod.path i)) eqn:E; [exact Hk|].
  rewrite lookup_insert_ne; [exact Hk|]. intros <-. congruence.
Qed.

(** Every issue gives its field an error. *)
Lemma parseErrorSchema_covers issues : ∀ (acc : gmap string FieldError) i,
  i ∈ issues → is_Some (parseErrorSchema issues acc !! issue_key i).
Proof.
  induction issues as [|j rest IH]; intros acc i Hi.
  - now apply elem_of_nil in Hi.
  - cbn [parseErrorSchema]. apply elem_of_cons in Hi as [->|Hi]; [|now apply IH].
    fold (issue_key j).
    destruct (acc !! issue_key j) as [e|] eqn:E.
    + exists e. now apply parseErrorSchema_keeps.
    + eexists. apply parseErrorSchema_keeps, lookup_insert_eq.
Qed.

(** Every error comes from an issue. *)
Lemma parseErrorSchema_origin issues : ∀ (acc : gmap string FieldError) k e,
  parseErrorSchema issues acc !! k = Some e →
  acc !! k = Some e
  ∨ ∃ i, i ∈ issues ∧ k = issue_key i
         ∧ e = mkFieldError (Zod.code i) (Zod.message i).
Proof.
  induction issues as [|j rest IH]; intros acc k e Hk; [now left|].
  cbn [parseErrorSchema] in Hk. fold (issue_key j) in Hk.
  apply IH in Hk as [Hk|(i & Hi & -> & ->)].
  - destruct (acc !! issue_key j) eqn:E; [now left|].
    destruct (decide (issue_key j = k)) as [<-|Hne].
    + rewrite lookup_insert_eq in Hk. injection Hk as <-.
      right. exists j. split; [apply list_elem_of_here|]. now split.
    + rewrite lookup_insert_ne in Hk by exact Hne. now left.
  - right. exists i. split; [now apply list_elem_of_further|]. now split.
Qed.

Lemma resolver_valid d :
  Zod.isValid (formSchema d) = true → resolver d = inl d.
Proof.
  unfold resolver, Zod.isValid. destruct (formSchema d) as [[] i]; simpl;
    (reflexivity || discriminate).
Qed.

Lemma resolver_invalid d :
  Zod.isValid (formSchema d) = false → resolver d = inr (errors_of d).
Proof.
  unfold resolver, errors_of, Zod.isValid.
  destruct (formSchema d) as [[] i]; simpl; (reflexivity || discriminate).
Qed.

Lemma formSchema_issues_known d i :
  i ∈ snd (formSchema d) → i ∈ field_issues ∨ i = age_range_issue.
Proof.
  rewrite formSchema_issues, elem_of_app. intros [H|H].
  - left. now apply shape_issues_known in H.
  - right. destruct (_ && _); [now apply list_elem_of_singleton in H|].
    now apply elem_of_nil in H.
Qed.

(** C4, as stated, fails: with "custom" selected, no age entered and no
    deadline picked, validation fails but nothing is attached to [ageTo]:
    the only error is the one of the missing deadline. *)
Lemma custom_without_deadline_has_no_ageTo_error :
  ageRequirement
    (set_ageRequirement Custom (set_applicationDeadline None sample_draft))
  = Custom
  ∧ ageFrom
      (set_ageRequirement Custom (set_applicationDeadline None sample_draft))
    = None
  ∧ formSchema
      (set_ageRequirement Custom (set_applicationDeadline None sample_draft))
    = (Zod.aborted,
       [Zod.mkIssue Zod.invalid_type ["applicationDeadline"]
                    "Application deadline is required"])
  ∧ errors_of
      (set_ageRequirement Custom (set_applicationDeadline None sample_draft))
    !! "ageTo" = None.
Proof. repeat split; reflexivity. Qed.

(** C4, amended: with "custom" selected validation fails unless both ages
    are present and [ageFrom ≤ ageTo]; when the deadline is present, so
    that the cross-field rule is reached, whichever of these conditions
    fails, the rule's issue is raised, [ageTo] gets an error, and the rule
    never attaches an issue to another field; when the deadline is missing
    the rule raises nothing. *)
Theorem custom_age_range_error_is_on_ageTo d :
  ageRequirement d = Custom →
  (Zod.isValid (formSchema d) = true →
   ∃ f t, ageFrom d = Some f ∧ ageTo d = Some t ∧ (f ≤ t)%Z)
  ∧ (present (applicationDeadline d) = true →
     (¬ ∃ f t, ageFrom d = Some f ∧ ageTo d = Some t ∧ (f ≤ t)%Z) →
     age_range_issue ∈ snd (formSchema d)
     ∧ is_Some (errors_of d !! "ageTo"))
  ∧ (∀ i, i ∈ snd (formSchema d) → Zod.code i = Zod.custom →
          Zod.path i = ["ageTo"])
  ∧ (present (applicationDeadline d) = false →
     age_range_issue ∉ snd (formSchema d)).
Proof.
  intros Hc.
  assert (Hok : age_range_ok d = true ↔
                ∃ f t, ageFrom d = Some f ∧ ageTo d = Some t ∧ (f ≤ t)%Z).
  { unfold age_range_ok. rewrite Hc.
    destruct (ageFrom d) as [f|], (ageTo d) as [t|]; split;
      try discriminate; try (intros (? & ? & ? & ? & ?); discriminate).
    - intros H%Z.leb_le. eauto.
    - intros (f' & t' & [= <-] & [= <-] & H). now apply Z.leb_le. }
  split; [|split; [|split]].
  - rewrite formSchema_valid, andb_true_iff. intros [_ H]. now apply Hok.
  - intros Hd Hno.
    assert (Hin : age_range_issue ∈ snd (formSchema d)).
    { rewrite formSchema_issues, Hd, elem_of_app. right.
      destruct (age_range_ok d); [now destruct Hno; apply Hok|].
      apply list_elem_of_here. }
    split; [exact Hin|].
    exact (parseErrorSchema_covers _ ∅ _ Hin).
  - intros i [Hi| ->]%formSchema_issues_known Hcode; [|reflexivity].
    unfold field_issues in Hi.
    repeat (apply elem_of_cons in Hi as [->|Hi]; [discriminate Hcode|]).
    now apply elem_of_nil in Hi.
  - intros Hd. rewrite formSchema_issues, Hd, elem_of_app.
    intros [Hi|Hi]; [|now apply elem_of_nil in Hi].
    apply shape_issues_known in Hi. unfold field_issues in Hi.
    repeat (apply elem_of_cons in Hi as [[=]|Hi]).
    now apply elem_of_nil in Hi.
Qed.

Lemma custom_age_range_error_is_on_ageTo_witness :
  age_range_issue
    ∈ snd (formSchema
             (set_ageRequirement Custom
                (set_ageFrom (Some 40%Z) (set_ageTo (Some 30%Z) sample_draft))))
  ∧ is_Some
      (errors_of
         (set_ageRequirement Custom
            (set_ageFrom (Some 40%Z) (set_ageTo (Some 30%Z) sample_draft)))
       !! "ageTo").
Proof.
  apply (custom_age_range_error_is_on_ageTo
           (set_ageRequirement Custom
              (set_ageFrom (Some 40%Z) (set_ageTo (Some 30%Z) sample_draft)))
           eq_refl).
  - reflexivity.
  - intros (f & t & [= <-] & [= <-] & H). lia.
Defined.

(** ** Submission *)

Lemma callback_calls_app l1 l2 :
  callback_calls (l1 ++ l2) = (callback_calls l1 + callback_calls l2)%nat.
Proof.
  induction l1 as [|e l1 IH]; [reflexivity|].
  destruct e; simpl; rewrite IH; reflexivity.
Qed.

(** C5: submitting a draft that passes validation logs it, shows the toast,
    puts every field back to the value it had on mount, and calls the
    completion callback once when the caller supplied one. *)
Theorem valid_submit_resets_and_calls_back_once props st :
  Zod.isValid (formSchema (values st)) = true →
  values (handleSubmit props st) = defaultValues
  ∧ values (handleSubmit props st) = values mount
  ∧ errors (handleSubmit props st) = ∅
  ∧ effects (handleSubmit props st)
    = effects st
      ++ [ConsoleLog (values st);
          Toast "Job Posted Successfully!"
                "Your job posting has been submitted."]
      ++ (if onSuccess props then [OnSuccess] else [])
  ∧ callback_calls (effects (handleSubmit props st))
    = (callback_calls (effects st) + if onSuccess props then 1 else 0)%nat.
Proof.
  intros Hv. unfold handleSubmit. rewrite (resolver_valid _ Hv).
  cbn [onSubmit values errors effects]. repeat split.
  rewrite !callback_calls_app. now destruct (onSuccess props).
Qed.

Lemma valid_submit_resets_and_calls_back_once_witness :
  values (handleSubmit (mkProps true) (set_values sample_draft mount))
  = defaultValues
  ∧ callback_calls
      (effects (handleSubmit (mkProps true) (set_values sample_draft mount)))
    = 1%nat.
Proof.
  pose proof (valid_submit_resets_and_calls_back_once
                (mkProps true) (set_values sample_draft mount) eq_refl)
    as (H1 & _ & _ & _ & H2).
  split; [exact H1 | exact H2].
Defined.

(** C6: submitting a draft that fails validation raises nothing: the
    resolver returns a map of errors, which is not empty, has an entry for
    every issue, only has fields of the form as keys and carries a message
    in every entry; the values, the visibility flag and the effects are as
    before, so the draft is not reset and the callback is not called. *)
Theorem invalid_submit_reports_errors_and_keeps_the_draft props st :
  Zod.isValid (formSchema (values st)) = false →
  resolver (values st) = inr (errors_of (values st))
  ∧ errors_of (values st) ≠ ∅
  ∧ (∀ i, i ∈ snd (formSchema (values st)) →
          is_Some (errors_of (values st) !! issue_key i))
  ∧ (∀ k e, errors_of (values st) !! k = Some e →
            k ∈ field_names ∧ error_message e ≠ "")
  ∧ handleSubmit props st
    = {| values := values st; errors := errors_of (values st);
         showCustomAge := showCustomAge st; effects := effects st |}
  ∧ callback_calls (effects (handleSubmit props st))
    = callback_calls (effects st).
Proof.
  intros Hv. pose proof (resolver_invalid _ Hv) as Hr.
  assert (Hcov : ∀ i, i ∈ snd (formSchema (values st)) →
                      is_Some (errors_of (values st) !! issue_key i)).
  { intros i Hi. now apply parseErrorSchema_covers. }
  assert (Hs : handleSubmit props st
               = {| values := values st; errors := errors_of (values st);
                    showCustomAge := showCustomAge st;
                    effects := effects st |}).
  { unfold handleSubmit. now rewrite Hr. }
  split; [exact Hr|]. split; [|split; [exact Hcov|split; [|split]]].
  - destruct (snd (formSchema (values st))) as [|i rest] eqn:E.
    + apply (formSchema_coherent (values st)) in E. congruence.
    + intros Hempty. destruct (Hcov i) as [e He]; [apply list_elem_of_here|].
      rewrite Hempty, lookup_empty in He. discriminate.
  - intros k e Hk. unfold errors_of in Hk.
    apply parseErrorSchema_origin in Hk as [Hk|(i & Hi & -> & ->)].
    { rewrite lookup_empty in Hk. discriminate. }
    apply formSchema_issues_known in Hi as [Hi| ->].
    + unfold field_issues in Hi.
      repeat (apply elem_of_cons in Hi as [->|Hi];
              [split; [vm_compute; repeat constructor | discriminate]|]).
      now apply elem_of_nil in Hi.
    + split; [vm_compute; repeat constructor | discriminate].
  - exact Hs.
  - now rewrite Hs.
Qed.

Lemma invalid_submit_reports_errors_and_keeps_the_draft_witness :
  values edited_after_posting
  = {| jobTitle := "Co"; company := "Acme"; location := "";
       jobDescription := ""; salary := Some ""; ageRequirement := Any;
       ageFrom := None; ageTo := None; benefits := ["no-resume"];
       applicationDeadline := None; viberNumber := "" |}
  ∧ effects edited_after_posting
    = [ ConsoleLog
          {| jobTitle := "Sales Representative"; company := "Acme";
             location := "Yangon, Myanmar";
             jobDescription := "Sell the products of the company to shops.";
             salary := Some ""; ageRequirement := Custom;
             ageFrom := Some 20%Z; ageTo := Some 30%Z; benefits := [];
             applicationDeadline := Some (startOfDay 20010);
             viberNumber := "0912345678" |};
        Toast "Job Posted Successfully!"
              "Your job posting has been submitted.";
        OnSuccess ]
  ∧ handleSubmit (mkProps true) edited_after_posting
    = {| values := values edited_after_posting;
         errors := errors_of (values edited_after_posting);
         showCustomAge := true;
         effects := effects edited_after_posting |}
  ∧ errors_of (values edited_after_posting) ≠ ∅
  ∧ errors_of (values edited_after_posting) !! "jobTitle"
    = Some (mkFieldError Zod.too_small
              "Job title must be at least 3 characters")
  ∧ callback_calls
      (effects (handleSubmit (mkProps true) edited_after_posting))
    = 1%nat.
Proof.
  pose proof (invalid_submit_reports_errors_and_keeps_the_draft
                (mkProps true) edited_after_posting eq_refl)
    as (_ & H1 & _ & _ & H2 & H3).
  split; [reflexivity|]. split; [reflexivity|].
  split; [exact H2|]. split; [exact H1|]. split; [reflexivity|].
  rewrite H3. reflexivity.
Defined.

(** ** The benefit check boxes *)

Lemma filter_other_absent (id : string) (value : list string) :
  id ∉ value → filter (λ v, v ≠ id) value = value.
Proof.
  induction value as [|x value IH]; intros Hid; [reflexivity|].
  apply not_elem_of_cons in Hid as [Hne Hid].
  rewrite filter_cons_True by congruence. now rewrite IH.
Qed.

Lemma toggle_present (id : string) (value : list string) :
  id ∈ value → toggle id value = filter (λ v, v ≠ id) value.
Proof.
  intros H. unfold toggle, includes. now rewrite bool_decide_eq_true_2.
Qed.

Lemma toggle_absent (id : string) (value : list string) :
  id ∉ value → toggle id value = value ++ [id].
Proof.
  intros H. unfold toggle, includes. now rewrite bool_decide_eq_false_2.
Qed.

(** After a click an id is in the collection exactly when it was not there
    before; the other ids are as before. *)
Lemma elem_of_toggle (id x : string) (value : list string) :
  x ∈ toggle id value ↔ if decide (x = id) then id ∉ value else x ∈ value.
Proof.
  destruct (decide (id ∈ value)) as [Hin|Hout].
  - rewrite toggle_present, list_elem_of_filter by exact Hin.
    destruct (decide (x = id)) as [->|]; tauto.
  - rewrite toggle_absent, elem_of_app, list_elem_of_singleton by exact Hout.
    destruct (decide (x = id)) as [->|]; tauto.
Qed.

Lemma NoDup_toggle (id : string) (value : list string) :
  NoDup value → NoDup (toggle id value).
Proof.
  intros Hnd. destruct (decide (id ∈ value)) as [Hin|Hout].
  - rewrite toggle_present by exact Hin. now apply NoDup_filter.
  - rewrite toggle_absent by exact Hout. apply NoDup_app.
    split; [exact Hnd|]. split; [|apply NoDup_singleton].
    intros x Hx ->%list_elem_of_singleton. contradiction.
Qed.

(** C7: clicking the check box of an id twice gives back a collection with
    the same members as before, for every collection and every id; it is
    the very same list when the id was absent, and a rearrangement of the
    list when the list has no duplicate. *)
Theorem toggle_twice_restores_contents (id : string) (value : list string) :
  (∀ x, x ∈ toggle id (toggle id value) ↔ x ∈ value)
  ∧ (id ∉ value → toggle id (toggle id value) = value)
  ∧ (NoDup value → toggle id (toggle id value) ≡ₚ value).
Proof.
  assert (Hmem : ∀ x, x ∈ toggle id (toggle id value) ↔ x ∈ value).
  { intros x. rewrite elem_of_toggle.
    destruct (decide (x = id)) as [->|Hne].
    - rewrite elem_of_toggle, decide_True by reflexivity.
      destruct (decide (id ∈ value)); tauto.
    - rewrite elem_of_toggle, decide_False by exact Hne. reflexivity. }
  split; [exact Hmem|]. split.
  - intros Hout. rewrite (toggle_absent id value Hout).
    rewrite toggle_present by (apply elem_of_app; right; apply list_elem_of_here).
    rewrite filter_app, (filter_other_absent id value Hout).
    rewrite filter_cons_False by (intros H; now apply H).
    rewrite filter_nil. apply app_nil_r.
  - intros Hnd. apply NoDup_Permutation; [|exact Hnd|exact Hmem].
    now apply NoDup_toggle, NoDup_toggle.
Qed.

(** Every step keeps the benefits free of duplicates. *)
Lemma NoDup_benefits_step props st e :
  NoDup (benefits (values st)) → NoDup (benefits (values (step props st e))).
Proof.
  intros Hnd. destruct e; cbn [step].
  - destruct f; exact Hnd.
  - exact Hnd.
  - now destruct (showCustomAge st).
  - now destruct (showCustomAge st).
  - destruct (bool_decide _); [|exact Hnd]. now apply NoDup_toggle.
  - destruct (calendar_disabled _ _ _); [exact Hnd|]. now destruct (bool_decide _).
  - destruct (submit_withheld st); [exact Hnd|].
    unfold handleSubmit. destruct (resolver (values st)); [|exact Hnd].
    apply NoDup_nil_2.
Qed.

Lemma NoDup_benefits_run props events : ∀ st,
  NoDup (benefits (values st)) →
  NoDup (benefits (values (foldl (step props) st events))).
Proof.
  induction events as [|e events IH]; intros st Hnd; [exact Hnd|].
  cbn [foldl]. now apply IH, NoDup_benefits_step.
Qed.

(** C8: the benefits start empty; a click on a check box adds its id when it
    is absent and removes it when it is present, leaving the other ids as
    they are; a click takes the adding branch only when the id is absent,
    adding an id that is a member already would not change the members, a
    click keeps a collection free of duplicates, and so no collection the
    component can reach holds an id twice. *)
Theorem benefits_behave_as_a_set :
  benefits defaultValues = []
  ∧ benefits (values mount) = []
  ∧ (∀ (id x : string) (value : list string),
       x ∈ toggle id value
       ↔ if decide (x = id) then id ∉ value else x ∈ value)
  ∧ (∀ (id : string) (value : list string),
       id ∉ value → toggle id value = onCheckedChange id true value)
  ∧ (∀ (id : string) (value : list string),
       id ∈ value → toggle id value = onCheckedChange id false value
                    ∧ id ∉ toggle id value)
  ∧ (∀ (id : string) (value : list string),
       id ∈ value → ∀ x, x ∈ onCheckedChange id true value ↔ x ∈ value)
  ∧ (∀ (id : string) (value : list string),
       NoDup value → NoDup (toggle id value))
  ∧ (∀ props st, reachable props st → NoDup (benefits (values st))).
Proof.
  split; [reflexivity|]. split; [reflexivity|].
  split; [intros; apply elem_of_toggle|].
  split; [intros id value H; now rewrite toggle_absent|].
  split.
  { intros id value H. rewrite toggle_present by exact H.
    split; [reflexivity|]. rewrite list_elem_of_filter. tauto. }
  split.
  { intros id value H x. cbn [onCheckedChange].
    rewrite elem_of_app, list_elem_of_singleton.
    split; [intros [Hx| ->]; assumption | now left]. }
  split; [apply NoDup_toggle|].
  intros props st [events <-]. apply NoDup_benefits_run, NoDup_nil_2.
Qed.

(** ** The age-range fields *)

Lemma ages_kept_by_selections props (vs : list AgeRequirement) : ∀ st,
  ageFrom (values (foldl (step props) st (SelectAgeRequirement <$> vs)))
  = ageFrom (values st)
  ∧ ageTo (values (foldl (step props) st (SelectAgeRequirement <$> vs)))
    = ageTo (values st).
Proof.
  induction vs as [|v vs IH]; intros st; [split; reflexivity|].
  cbn [fmap list_fmap foldl]. destruct (IH (step props st (SelectAgeRequirement v)))
    as [-> ->]. split; reflexivity.
Qed.

(** C9: selecting "any" hides the two age inputs and keeps [ageFrom] and
    [ageTo]; selecting "custom" again, after any number of other selections
    and no other edit, shows the inputs again with [ageFrom] and [ageTo] as
    they were entered: hiding does not clear them. *)
Theorem age_values_survive_hiding props st (others : list AgeRequirement) :
  age_range_visible (step props st (SelectAgeRequirement Any)) = false
  ∧ ageFrom (values (step props st (SelectAgeRequirement Any)))
    = ageFrom (values st)
  ∧ ageTo (values (step props st (SelectAgeRequirement Any)))
    = ageTo (values st)
  ∧ age_range_visible (reselect_custom props st others) = true
  ∧ ageRequirement (values (reselect_custom props st others)) = Custom
  ∧ ageFrom (values (reselect_custom props st others)) = ageFrom (values st)
  ∧ ageTo (values (reselect_custom props st others)) = ageTo (values st).
Proof.
  split; [reflexivity|]. split; [reflexivity|]. split; [reflexivity|].
  unfold reselect_custom. rewrite foldl_app. cbn [foldl step].
  destruct (ages_kept_by_selections props others st) as [HF HT].
  repeat split; cbn [onValueChange values set_ageRequirement ageFrom ageTo];
    assumption.
Qed.

(** The flag follows the selection on mount, and every step keeps it so,
    except a submission that passes validation. *)
Lemma visible_iff_custom_mount : visible_iff_custom mount.
Proof. split; discriminate. Qed.

Lemma visible_iff_custom_step props st e :
  (e = Submit → Zod.isValid (formSchema (values st)) = false) →
  visible_iff_custom st → visible_iff_custom (step props st e).
Proof.
  intros Hsub Hinv. destruct e; cbn [step].
  - destruct f; exact Hinv.
  - unfold visible_iff_custom. destruct v; cbn; split;
      (reflexivity || discriminate).
  - now destruct (showCustomAge st).
  - now destruct (showCustomAge st).
  - now destruct (bool_decide _).
  - destruct (calendar_disabled _ _ _); [exact Hinv|]. now destruct (bool_decide _).
  - destruct (submit_withheld st); [exact Hinv|].
    unfold handleSubmit. now rewrite (resolver_invalid _ (Hsub eq_refl)).
Qed.

(** C2 does not hold across a successful submission: after
    [custom_posting] the draft was accepted (logged, reset, callback called
    once) and [form.reset()] put [ageRequirement] back to "any", but
    [showCustomAge] was left as it was, so the age inputs are still shown. *)
Theorem age_range_still_visible_after_submit :
  ageRequirement (values (run (mkProps true) custom_posting)) = Any
  ∧ age_range_visible (run (mkProps true) custom_posting) = true
  ∧ values (run (mkProps true) custom_posting) = defaultValues
  ∧ callback_calls (effects (run (mkProps true) custom_posting)) = 1%nat
  ∧ ¬ visible_iff_custom (run (mkProps true) custom_posting).
Proof.
  assert (E : run (mkProps true) custom_posting
              = {| values := defaultValues; errors := ∅;
                   showCustomAge := true;
                   effects :=
                     [ ConsoleLog
                         {| jobTitle := "Sales Representative";
                            company := "Acme";
                            location := "Yangon, Myanmar";
                            jobDescription :=
                              "Sell the products of the company to shops.";
                            salary := Some ""; ageRequirement := Custom;
                            ageFrom := Some 20%Z; ageTo := Some 30%Z;
                            benefits := [];
                            applicationDeadline := Some (startOfDay 20010);
                            viberNumber := "0912345678" |};
                       Toast "Job Posted Successfully!"
                             "Your job posting has been submitted.";
                       OnSuccess ] |}) by reflexivity.
  rewrite E. repeat split.
  unfold visible_iff_custom. cbn. intros [H _]. discriminate (H eq_refl).
Qed.

(** * Further properties of the schema, the resolver and the component *)

(** ** Which drafts the schema accepts *)

(** X1: a draft passes validation exactly when the four texts have their
    minimal lengths, each age that is present lies in 18..100, a deadline is
    present, the contact number matches the pattern and, when "custom" is
    selected, both ages are present with [ageFrom ≤ ageTo]. *)
Theorem formSchema_accepts_iff d :
  Zod.isValid (formSchema d) = true ↔
  (3 ≤ String.length (jobTitle d))%nat
  ∧ (2 ≤ String.length (company d))%nat
  ∧ (2 ≤ String.length (location d))%nat
  ∧ (20 ≤ String.length (jobDescription d))%nat
  ∧ (∀ n, ageFrom d = Some n → (18 ≤ n ≤ 100)%Z)
  ∧ (∀ n, ageTo d = Some n → (18 ≤ n ≤ 100)%Z)
  ∧ is_Some (applicationDeadline d)
  ∧ RegExp.test viber_regex (viberNumber d) = true
  ∧ (ageRequirement d = Custom →
     ∃ f t, ageFrom d = Some f ∧ ageTo d = Some t ∧ (f ≤ t)%Z).
Proof.
  assert (Hb : ∀ v, in_age_bounds v = true
                    ↔ ∀ n, v = Some n → (18 ≤ n ≤ 100)%Z).
  { intros [m|]; cbn [in_age_bounds].
    - rewrite andb_true_iff, !Z.leb_le. split.
      + intros H n [= <-]. exact H.
      + intros H. now apply H.
    - split; [discriminate|reflexivity]. }
  assert (Hp : present (applicationDeadline d) = true
               ↔ is_Some (applicationDeadline d)).
  { destruct (applicationDeadline d); cbn; split; eauto; try discriminate.
    intros [? [=]]. }
  assert (Hr : age_range_ok d = true
               ↔ (ageRequirement d = Custom →
                  ∃ f t, ageFrom d = Some f ∧ ageTo d = Some t ∧ (f ≤ t)%Z)).
  { unfold age_range_ok.
    destruct (ageRequirement d); try (split; [discriminate|reflexivity]).
    destruct (ageFrom d) as [f|], (ageTo d) as [t|]; split;
      try discriminate; try (intros H; destruct (H eq_refl) as (? & ? & ? & ? & ?);
                             discriminate).
    - intros H%Z.leb_le _. eauto.
    - intros H. destruct (H eq_refl) as (f' & t' & [= <-] & [= <-] & Hle).
      now apply Z.leb_le. }
  rewrite formSchema_valid. unfold other_fields_ok.
  rewrite !andb_true_iff, !Nat.leb_le, <- viber_regex_spec.
  rewrite (Hb (ageFrom d)), (Hb (ageTo d)), Hp, Hr. tauto.
Qed.

(** Text fields are compared by length alone. *)
Lemma string_min_length n msg p s s' :
  String.length s = String.length s' →
  Zod.string_min n msg p s = Zod.string_min n msg p s'.
Proof. unfold Zod.string_min. now intros ->. Qed.

(** X3: the rules of the texts other than the contact number look at the
    length only: replacing such a text by any text of the same length, blank
    or not, gives the same validation result, issues included. *)
Theorem text_rules_depend_on_length_only d f s :
  f ≠ ViberNumber →
  String.length s = String.length (get_text f d) →
  formSchema (set_text f s d) = formSchema d.
Proof.
  intros Hf Hlen. unfold formSchema, formSchema_shape, age_range_ok.
  destruct f; cbn [get_text] in Hlen;
    cbn [set_text jobTitle company location jobDescription salary
         ageRequirement ageFrom ageTo benefits applicationDeadline
         viberNumber];
    try reflexivity; try congruence;
    now rewrite (string_min_length _ _ _ _ _ Hlen).
Qed.

Lemma text_rules_depend_on_length_only_witness :
  formSchema (set_text JobDescription "                    " sample_draft)
  = formSchema
      (set_text JobDescription "12345678901234567890" sample_draft).
Proof.
  apply (text_rules_depend_on_length_only
           (set_text JobDescription "12345678901234567890" sample_draft)
           JobDescription "                    ").
  - discriminate.
  - reflexivity.
Defined.

(** ** The error map *)

Lemma parseErrorSchema_lookup issues : ∀ (acc : gmap string FieldError) k,
  parseErrorSchema issues acc !! k
  = match acc !! k with
    | Some e => Some e
    | None => first_error k issues
    end.
Proof.
  induction issues as [|i rest IH]; intros acc k; cbn [parseErrorSchema first_error].
  { now destruct (acc !! k). }
  rewrite IH. fold (issue_key i).
  destruct (acc !! issue_key i) as [e|] eqn:E.
  - destruct (acc !! k) eqn:Ek; [reflexivity|].
    destruct (decide (issue_key i = k)) as [<-|]; [congruence|reflexivity].
  - destruct (decide (issue_key i = k)) as [<-|Hne].
    + now rewrite lookup_insert_eq, E.
    + now rewrite lookup_insert_ne.
Qed.

Lemma errors_of_lookup d k :
  errors_of d !! k = first_error k (snd (formSchema d)).
Proof. unfold errors_of. now rewrite parseErrorSchema_lookup, lookup_empty. Qed.

Lemma first_error_app k l1 l2 :
  first_error k (l1 ++ l2)
  = match first_error k l1 with
    | Some e => Some e
    | None => first_error k l2
    end.
Proof.
  induction l1 as [|i l1 IH]; [reflexivity|]. cbn [app first_error].
  now destruct (decide (issue_key i = k)).
Qed.

Section FieldErrors.
Import Zod.

Lemma first_error_OK k : first_error k (snd OK) = None.
Proof. reflexivity. Qed.

Lemma first_error_string_min n msg p s k :
  first_error k (snd (string_min n msg [p] s))
  = if decide (p = k)
    then if (String.length s <? n)%nat
         then Some (mkFieldError too_small msg) else None
    else None.
Proof.
  unfold string_min. destruct (_ <? _)%nat; cbn;
    now destruct (decide (p = k)).
Qed.

Lemma first_error_string_regex re msg p s k :
  first_error k (snd (string_regex re msg [p] s))
  = if decide (p = k)
    then if RegExp.test re s
         then None else Some (mkFieldError invalid_string msg)
    else None.
Proof.
  unfold string_regex. destruct (RegExp.test re s); cbn;
    now destruct (decide (p = k)).
Qed.

Lemma first_error_number a b p v k :
  first_error k (snd (number_min_max_optional a b [p] v))
  = if decide (p = k)
    then match v with
         | None => None
         | Some n =>
             if (n <? a)%Z
             then Some (mkFieldError too_small (number_min_message a))
             else if (b <? n)%Z
                  then Some (mkFieldError too_big (number_max_message b))
                  else None
         end
    else None.
Proof.
  destruct v as [n|]; cbn; [|now destruct (decide (p = k))].
  destruct (n <? a)%Z, (b <? n)%Z; cbn; now destruct (decide (p = k)).
Qed.

Lemma first_error_date msg p v k :
  first_error k (snd (date msg [p] v))
  = if decide (p = k)
    then match v with
         | None => Some (mkFieldError invalid_type msg)
         | Some _ => None
         end
    else None.
Proof. destruct v; cbn; now destruct (decide (p = k)). Qed.

Lemma first_error_refinement k (b : bool) :
  first_error k (if b then [age_range_issue] else [])
  = if decide ("ageTo" = k)
    then if b then Some (mkFieldError custom age_range_message) else None
    else None.
Proof. destruct b; cbn; now destruct (decide ("ageTo" = k)). Qed.

End FieldErrors.

(** The error of a key, field by field of the shape. *)
Ltac field_errors :=
  rewrite errors_of_lookup, formSchema_issues;
  unfold formSchema_shape, viberNumber_schema;
  cbn [fmap list_fmap concat]; rewrite !first_error_app;
  rewrite !first_error_string_min, !first_error_number, first_error_date,
    first_error_string_regex, !first_error_OK, first_error_refinement;
  repeat (rewrite decide_False by discriminate);
  rewrite ?decide_True by reflexivity.

(** X5: after a failed submission each of the four texts, the deadline and
    the contact number has an error exactly when its own rule fails, and
    the error carries the message the schema gives for that rule. *)
Theorem field_errors_follow_the_field_rules d :
  errors_of d !! "jobTitle"
  = (if (String.length (jobTitle d) <? 3)%nat
     then Some (mkFieldError Zod.too_small
                  "Job title must be at least 3 characters")
     else None)
  ∧ errors_of d !! "company"
    = (if (String.length (company d) <? 2)%nat
       then Some (mkFieldError Zod.too_small
                    "Company name must be at least 2 characters")
       else None)
  ∧ errors_of d !! "location"
    = (if (String.length (location d) <? 2)%nat
       then Some (mkFieldError Zod.too_small "Location is required")
       else None)
  ∧ errors_of d !! "jobDescription"
    = (if (String.length (jobDescription d) <? 20)%nat
       then Some (mkFieldError Zod.too_small
                    "Job description must be at least 20 characters")
       else None)
  ∧ errors_of d !! "applicationDeadline"
    = match applicationDeadline d with
      | None => Some (mkFieldError Zod.invalid_type
                        "Application deadline is required")
      | Some _ => None
      end
  ∧ errors_of d !! "viberNumber"
    = (if RegExp.test viber_regex (viberNumber d)
       then None
       else Some (mkFieldError Zod.invalid_string
                    "Viber number must start with 09 and be valid")).
Proof.
  repeat split; field_errors.
  - now destruct (_ <? _)%nat.
  - now destruct (_ <? _)%nat.
  - now destruct (_ <? _)%nat.
  - now destruct (_ <? _)%nat.
  - now destruct (applicationDeadline d).
  - now destruct (RegExp.test _ _).
Qed.

(** X6: [ageFrom] only ever gets the error of its own bounds.  On [ageTo]
    the error of its own bounds comes first; the error of the cross-field
    rule is shown there only when [ageTo] is absent or within its bounds,
    the deadline is present and the rule fails. *)
Theorem age_errors_bounds_first d :
  errors_of d !! "ageFrom"
  = match ageFrom d with
    | None => None
    | Some n =>
        if (n <? 18)%Z
        then Some (mkFieldError Zod.too_small
                     "Number must be greater than or equal to 18")
        else if (100 <? n)%Z
             then Some (mkFieldError Zod.too_big
                          "Number must be less than or equal to 100")
             else None
    end
  ∧ errors_of d !! "ageTo"
    = let rule :=
        if present (applicationDeadline d) && negb (age_range_ok d)
        then Some (mkFieldError Zod.custom age_range_message)
        else None in
      match ageTo d with
      | None => rule
      | Some n =>
          if (n <? 18)%Z
          then Some (mkFieldError Zod.too_small
                       "Number must be greater than or equal to 18")
          else if (100 <? n)%Z
               then Some (mkFieldError Zod.too_big
                            "Number must be less than or equal to 100")
               else rule
      end.
Proof.
  split; field_errors.
  - destruct (ageFrom d) as [n|]; [|reflexivity].
    now destruct (n <? 18)%Z, (100 <? n)%Z.
  - cbn zeta. destruct (ageTo d) as [n|]; [|reflexivity].
    now destruct (n <? 18)%Z, (100 <? n)%Z.
Qed.

(** X2: [salary] and [benefits] are never validated: whatever they hold,
    the result of validation is the same; and no error is ever stored under
    a key other than the four texts, the two ages, the deadline and the
    contact number ([salary], [ageRequirement] and [benefits] get none). *)
Theorem salary_and_benefits_are_not_validated d :
  (∀ s, formSchema (set_text Salary s d) = formSchema d)
  ∧ (∀ b, formSchema (set_benefits b d) = formSchema d)
  ∧ (∀ k, is_Some (errors_of d !! k) → k ∈ error_keys)
  ∧ errors_of d !! "salary" = None
  ∧ errors_of d !! "ageRequirement" = None
  ∧ errors_of d !! "benefits" = None.
Proof.
  split; [reflexivity|]. split; [reflexivity|].
  assert (Hk : ∀ k, is_Some (errors_of d !! k) → k ∈ error_keys).
  { intros k [e Hk]. unfold errors_of in Hk.
    apply parseErrorSchema_origin in Hk as [Hk|(i & Hi & -> & _)].
    { rewrite lookup_empty in Hk. discriminate. }
    apply formSchema_issues_known in Hi as [Hi| ->].
    - unfold field_issues in Hi.
      repeat (apply elem_of_cons in Hi as [->|Hi];
              [vm_compute; repeat constructor|]).
      now apply elem_of_nil in Hi.
    - vm_compute; repeat constructor. }
  split; [exact Hk|].
  repeat split; apply eq_None_not_Some; intros H%Hk;
    unfold error_keys in H;
    repeat (apply elem_of_cons in H as [[=]|H]); now apply elem_of_nil in H.
Qed.

Lemma errors_of_nonempty d :
  Zod.isValid (formSchema d) = false → errors_of d ≠ ∅.
Proof.
  intros Hv. destruct (snd (formSchema d)) as [|i rest] eqn:E.
  - apply (formSchema_coherent d) in E. congruence.
  - intros Hempty.
    destruct (parseErrorSchema_covers (snd (formSchema d)) ∅ i) as [e He].
    { rewrite E. apply list_elem_of_here. }
    fold (errors_of d) in He. rewrite Hempty, lookup_empty in He.
    discriminate.
Qed.

(** X4: the error map is empty exactly when the draft passes validation,
    and the resolver hands out the values in that case and the error map
    in the other. *)
Theorem errors_empty_iff_valid d :
  (errors_of d = ∅ ↔ Zod.isValid (formSchema d) = true)
  ∧ (resolver d = inl d ↔ Zod.isValid (formSchema d) = true)
  ∧ (resolver d = inr (errors_of d) ↔ Zod.isValid (formSchema d) = false).
Proof.
  destruct (Zod.isValid (formSchema d)) eqn:Hv.
  - rewrite (resolver_valid _ Hv).
    apply (formSchema_coherent d) in Hv. unfold errors_of. rewrite Hv.
    repeat split; try reflexivity; discriminate.
  - rewrite (resolver_invalid _ Hv).
    pose proof (errors_of_nonempty d Hv) as Hne.
    repeat split; try reflexivity; try discriminate; intros H;
      now destruct Hne.
Qed.

(** ** Submitting *)



Lemma logged_app l1 l2 : logged (l1 ++ l2) = logged l1 ++ logged l2.
Proof.
  induction l1 as [|e l1 IH]; [reflexivity|].
  destruct e; cbn [app logged]; now rewrite IH.
Qed.

Lemma logged_post_effects props d : logged (post_effects props d) = [d].
Proof. unfold post_effects. now destruct (onSuccess props). Qed.

Lemma callback_calls_posts props ds :
  callback_calls (concat (post_effects props <$> ds))
  = if onSuccess props then length ds else 0%nat.
Proof.
  induction ds as [|d ds IH]; [now destruct (onSuccess props)|].
  cbn [fmap list_fmap concat]. rewrite callback_calls_app, IH.
  unfold post_effects. now destruct (onSuccess props).
Qed.

(** A step adds effects only as an accepted submission. *)
Lemma step_effects props st e :
  effects (step props st e) = effects st
  ∨ (e = Submit ∧ Zod.isValid (formSchema (values st)) = true
     ∧ effects (step props st e)
       = effects st ++ post_effects props (values st)).
Proof.
  destruct e; cbn [step]; try (now left).
  - left. now destruct (showCustomAge st).
  - left. now destruct (showCustomAge st).
  - left. now destruct (bool_decide _).
  - left. destruct (calendar_disabled _ _ _); [reflexivity|].
    now destruct (bool_decide _).
  - destruct (submit_withheld st); [now left|]. unfold handleSubmit.
    destruct (Zod.isValid (formSchema (values st))) eqn:Hv.
    + right. now rewrite (resolver_valid _ Hv).
    + left. now rewrite (resolver_invalid _ Hv).
Qed.

Lemma posted_only_step props st e n :
  posted_only props st n →
  posted_only props (step props st e)
              (n + match e with Submit => 1 | _ => 0 end).
Proof.
  intros (Heff & Hval & Hlen).
  destruct (step_effects props st e) as [E|(-> & Hv & E)]; unfold posted_only;
    rewrite E.
  - split; [exact Heff|]. split; [exact Hval|]. lia.
  - rewrite logged_app, logged_post_effects, fmap_app, concat_app, <- Heff.
    cbn [fmap list_fmap concat]. rewrite app_nil_r.
    split; [reflexivity|]. split.
    + apply Forall_app. split; [exact Hval|]. now constructor.
    + rewrite length_app. cbn [length]. lia.
Qed.

Lemma posted_only_run props events : ∀ st n,
  posted_only props st n →
  posted_only props (foldl (step props) st events) (n + submissions events).
Proof.
  induction events as [|e events IH]; intros st n H; cbn [foldl submissions].
  { now rewrite Nat.add_0_r. }
  apply (posted_only_step props st e) in H. apply IH in H.
  destruct e; cbn [submissions];
    rewrite <- ?Nat.add_assoc, ?Nat.add_0_r in *; exact H.
Qed.

(** X8: whatever the user does, the component acts on the outside only by
    posting drafts that passed validation: the effects of a session are, for
    each logged draft in turn, the log, the toast and, if a callback was
    supplied, one call of it; every logged draft passes validation; there
    are at most as many of them as submissions; and the callback was called
    once per logged draft, or never when none was supplied. *)
Theorem only_valid_drafts_are_posted props events :
  effects (run props events)
  = concat (post_effects props <$> logged (effects (run props events)))
  ∧ Forall (λ d, Zod.isValid (formSchema d) = true)
           (logged (effects (run props events)))
  ∧ (length (logged (effects (run props events))) ≤ submissions events)%nat
  ∧ callback_calls (effects (run props events))
    = if onSuccess props
      then length (logged (effects (run props events))) else 0%nat.
Proof.
  assert (H0 : posted_only props mount 0).
  { repeat split; [constructor | reflexivity]. }
  destruct (posted_only_run props events mount 0 H0) as (Heff & Hval & Hlen).
  fold (run props events) in *. split; [exact Heff|]. split; [exact Hval|].
  split; [exact Hlen|]. rewrite Heff at 1. apply callback_calls_posts.
Qed.

(** ** The callback and the hosting page *)

Lemma same_but_callbacks_step props props' st st' e :
  same_but_callbacks st st' →
  same_but_callbacks (step props st e) (step props' st' e).
Proof.
  destruct st as [v er sh ef], st' as [v' er' sh' ef'].
  intros (Hv & He & Hs & Hl). cbn in Hv, He, Hs, Hl. subst v' er' sh'.
  unfold same_but_callbacks.
  destruct e; cbn [step set_values onValueChange values errors showCustomAge
                   effects]; try (repeat split; assumption).
  - destruct sh; repeat split; assumption.
  - destruct sh; repeat split; assumption.
  - destruct (bool_decide _); repeat split; assumption.
  - destruct (calendar_disabled _ _ _); [repeat split; assumption|].
    destruct (bool_decide _); repeat split; assumption.
  - unfold submit_withheld. cbn [showCustomAge values].
    destruct (_ && _); [repeat split; assumption|].
    unfold handleSubmit. cbn [values].
    destruct (resolver v); cbn [onSubmit values errors showCustomAge effects];
      repeat split; try assumption.
    rewrite !logged_app, Hl. f_equal.
    now destruct (onSuccess props), (onSuccess props').
Qed.

Lemma same_but_callbacks_run props props' events : ∀ st st',
  same_but_callbacks st st' →
  same_but_callbacks (foldl (step props) st events)
                     (foldl (step props') st' events).
Proof.
  induction events as [|e events IH]; intros st st' H; [exact H|].
  cbn [foldl]. now apply IH, same_but_callbacks_step.
Qed.

(** X9: the callback is only ever called, it steers nothing: a session
    gives the same values, errors, visibility and logged drafts with a
    callback as on the hosting page, which passes none; and on the hosting
    page the callback is never called. *)
Theorem callback_steers_nothing props events :
  values (run props events) = values (run FindJobs_props events)
  ∧ errors (run props events) = errors (run FindJobs_props events)
  ∧ showCustomAge (run props events)
    = showCustomAge (run FindJobs_props events)
  ∧ logged (effects (run props events))
    = logged (effects (run FindJobs_props events))
  ∧ callback_calls (effects (run FindJobs_props events)) = 0%nat.
Proof.
  assert (H0 : same_but_callbacks mount mount) by (repeat split).
  destruct (same_but_callbacks_run props FindJobs_props events _ _ H0)
    as (H1 & H2 & H3 & H4).
  fold (run props events) in *. fold (run FindJobs_props events) in *.
  repeat split; try assumption.
  assert (P0 : posted_only FindJobs_props mount 0).
  { repeat split; [constructor | reflexivity]. }
  destruct (posted_only_run FindJobs_props events mount 0 P0) as (Heff & _).
  fold (run FindJobs_props events) in Heff. rewrite Heff.
  now rewrite callback_calls_posts.
Qed.

(** ** The visibility flag and the ages over a session *)

Lemma step_showCustomAge props st e :
  showCustomAge (step props st e)
  = match e with
    | SelectAgeRequirement Custom => true
    | SelectAgeRequirement _ => false
    | _ => showCustomAge st
    end.
Proof.
  destruct e as [f s|v|parsed|parsed|id|rendered now day|]; cbn [step].
  - reflexivity.
  - now destruct v.
  - destruct (showCustomAge st) eqn:E; [exact E|exact E].
  - destruct (showCustomAge st) eqn:E; [exact E|exact E].
  - now destruct (bool_decide _).
  - destruct (calendar_disabled _ _ _); [reflexivity|].
    now destruct (bool_decide _).
  - destruct (submit_withheld st); [reflexivity|].
    unfold handleSubmit. now destruct (resolver (values st)).
Qed.

Lemma step_ageRequirement props st e :
  e ≠ Submit →
  ageRequirement (values (step props st e))
  = match e with
    | SelectAgeRequirement v => v
    | _ => ageRequirement (values st)
    end.
Proof.
  intros He. destruct e as [f s|v|parsed|parsed|id|rendered now day|]; cbn [step].
  - now destruct f.
  - reflexivity.
  - now destruct (showCustomAge st).
  - now destruct (showCustomAge st).
  - now destruct (bool_decide _).
  - destruct (calendar_disabled _ _ _); [reflexivity|].
    now destruct (bool_decide _).
  - congruence.
Qed.

Lemma flag_follows_selection props events : ∀ st acc,
  showCustomAge st = match acc with Some Custom => true | _ => false end →
  showCustomAge (foldl (step props) st events)
  = match
      foldl (λ acc e,
               match e with SelectAgeRequirement v => Some v | _ => acc end)
            acc events
    with Some Custom => true | _ => false end.
Proof.
  induction events as [|e events IH]; intros st acc H; [exact H|].
  cbn [foldl]. apply IH. rewrite step_showCustomAge.
  destruct e as [f s|v|parsed|parsed|id|rendered now day|]; try exact H.
  now destruct v.
Qed.

Lemma selection_kept_without_submit props events : ∀ st acc,
  Submit ∉ events →
  ageRequirement (values st) = default Any acc →
  ageRequirement (values (foldl (step props) st events))
  = default Any
      (foldl (λ acc e,
                match e with SelectAgeRequirement v => Some v | _ => acc end)
             acc events).
Proof.
  induction events as [|e events IH]; intros st acc Hs H; [exact H|].
  apply not_elem_of_cons in Hs as [He Hs].
  cbn [foldl]. apply IH; [exact Hs|].
  rewrite step_ageRequirement by congruence.
  destruct e; try exact H. reflexivity.
Qed.

(** X10: at any point of a session the age inputs are shown exactly when
    the radio group was last set to "custom", whatever else happened in
    between, submissions included; as long as nothing was submitted the
    selected value is that last setting too ("any" when there was none), so
    the inputs are shown exactly when "custom" is the selected value. *)
Theorem flag_is_the_last_selection props events :
  age_range_visible (run props events)
  = match last_selection events with Some Custom => true | _ => false end
  ∧ (Submit ∉ events →
     ageRequirement (values (run props events))
     = default Any (last_selection events))
  ∧ (Submit ∉ events → visible_iff_custom (run props events)).
Proof.
  assert (H1 : age_range_visible (run props events)
               = match last_selection events with
                 | Some Custom => true | _ => false end).
  { apply (flag_follows_selection props events mount None). reflexivity. }
  assert (H2 : Submit ∉ events →
               ageRequirement (values (run props events))
               = default Any (last_selection events)).
  { intros Hs.
    now apply (selection_kept_without_submit props events mount None). }
  split; [exact H1|]. split; [exact H2|].
  intros Hs. unfold visible_iff_custom. rewrite H1, (H2 Hs).
  destruct (last_selection events) as [[]|]; cbn; split;
    (reflexivity || discriminate).
Qed.

Lemma ages_untouched_step props st e :
  e ≠ SelectAgeRequirement Custom →
  ages_untouched st → ages_untouched (step props st e).
Proof.
  intros He (Hs & Hr & Hf & Ht). unfold ages_untouched.
  destruct e as [f s|v|parsed|parsed|id|rendered now day|]; cbn [step].
  - destruct f; repeat split; assumption.
  - destruct v; try congruence; repeat split; try assumption; discriminate.
  - rewrite Hs. repeat split; assumption.
  - rewrite Hs. repeat split; assumption.
  - destruct (bool_decide _); repeat split; assumption.
  - destruct (calendar_disabled _ _ _); [repeat split; assumption|].
    destruct (bool_decide _); repeat split; assumption.
  - destruct (submit_withheld st); [repeat split; assumption|].
    unfold handleSubmit. destruct (resolver (values st));
      repeat split; try assumption. discriminate.
Qed.

(** X11: as long as "custom" has never been selected in a session, the age
    inputs have not been shown, both ages are undefined and the selection
    is not "custom"; so the ages cannot make validation fail: the draft
    passes exactly when the other fields satisfy their rules. *)
Theorem ages_stay_undefined_until_custom props events :
  SelectAgeRequirement Custom ∉ events →
  age_range_visible (run props events) = false
  ∧ ageRequirement (values (run props events)) ≠ Custom
  ∧ ageFrom (values (run props events)) = None
  ∧ ageTo (values (run props events)) = None
  ∧ Zod.isValid (formSchema (values (run props events)))
    = other_fields_ok (values (run props events)).
Proof.
  intros Hc.
  assert (H : ages_untouched (run props events)).
  { unfold run.
    assert (H0 : ages_untouched mount) by (repeat split; discriminate).
    revert Hc H0. generalize mount.
    induction events as [|e events IH]; intros st Hc H0; [exact H0|].
    apply not_elem_of_cons in Hc as [He Hc]. cbn [foldl].
    apply IH; [exact Hc|]. apply ages_untouched_step; [congruence|exact H0]. }
  destruct H as (Hs & Hr & Hf & Ht).
  repeat split; try assumption.
  rewrite formSchema_valid. unfold age_range_ok. rewrite Hf, Ht.
  cbn [in_age_bounds]. rewrite !andb_true_r.
  destruct (ageRequirement (values (run props events)));
    [apply andb_true_r..|congruence].
Qed.

Lemma ages_stay_undefined_until_custom_witness :
  ageFrom
    (values (run FindJobs_props
                 [SelectAgeRequirement Age18_35; TypeAgeFrom (Some 40%Z);
                  TypeText JobTitle "Cook"]))
  = None.
Proof.
  apply (ages_stay_undefined_until_custom FindJobs_props
           [SelectAgeRequirement Age18_35; TypeAgeFrom (Some 40%Z);
            TypeText JobTitle "Cook"]).
  intros H. repeat (apply elem_of_cons in H as [[=]|H]).
  now apply elem_of_nil in H.
Defined.

Lemma age_onChange_nonzero parsed : age_onChange parsed ≠ Some 0%Z.
Proof. destruct parsed as [[| |]|]; discriminate. Qed.

(** X12: the form never holds the age 0: an input whose [parseInt] is 0 or
    [NaN] clears the age instead, so at any point of a session neither
    [ageFrom] nor [ageTo] is 0. *)
Theorem ages_are_never_zero props events :
  ageFrom (values (run props events)) ≠ Some 0%Z
  ∧ ageTo (values (run props events)) ≠ Some 0%Z.
Proof.
  unfold run.
  assert (H0 : ageFrom (values mount) ≠ Some 0%Z
               ∧ ageTo (values mount) ≠ Some 0%Z) by (split; discriminate).
  revert H0. generalize mount.
  induction events as [|e events IH]; intros st H0; [exact H0|].
  cbn [foldl]. apply IH. destruct H0 as [Hf Ht].
  destruct e as [f s|v|parsed|parsed|id|rendered now day|]; cbn [step].
  - destruct f; split; assumption.
  - split; assumption.
  - destruct (showCustomAge st); split; try assumption.
    apply age_onChange_nonzero.
  - destruct (showCustomAge st); split; try assumption.
    apply age_onChange_nonzero.
  - destruct (bool_decide _); split; assumption.
  - destruct (calendar_disabled _ _ _); [split; assumption|].
    destruct (bool_decide _); split; assumption.
  - destruct (submit_withheld st); [split; assumption|].
    unfold handleSubmit. destruct (resolver (values st)); split;
      try assumption; discriminate.
Qed.

(** ** The benefits over a session *)

Lemma elem_of_toggle_subset (id x : string) (value : list string) :
  x ∈ toggle id value → x = id ∨ x ∈ value.
Proof.
  rewrite elem_of_toggle. destruct (decide (x = id)); [now left|now right].
Qed.

Lemma benefits_known_step props st e :
  Forall (λ x, x ∈ benefitsOptions.*1) (benefits (values st)) →
  Forall (λ x, x ∈ benefitsOptions.*1) (benefits (values (step props st e))).
Proof.
  intros H. destruct e as [f s|v|parsed|parsed|id|rendered now day|]; cbn [step].
  - now destruct f.
  - exact H.
  - now destruct (showCustomAge st).
  - now destruct (showCustomAge st).
  - destruct (bool_decide _) eqn:E; [|exact H].
    apply bool_decide_eq_true_1 in E. apply Forall_forall.
    intros x [->|Hx]%elem_of_toggle_subset; [exact E|].
    rewrite Forall_forall in H. now apply H.
  - destruct (calendar_disabled _ _ _); [exact H|]. now destruct (bool_decide _).
  - destruct (submit_withheld st); [exact H|].
    unfold handleSubmit. destruct (resolver (values st)); [|exact H].
    constructor.
Qed.

(** X13: at any point of a session the benefits hold only ids of
    [benefitsOptions], each at most once, hence at most seven of them. *)
Theorem benefits_stay_within_the_options props events :
  (∀ x, x ∈ benefits (values (run props events)) → x ∈ benefitsOptions.*1)
  ∧ NoDup (benefits (values (run props events)))
  ∧ (length (benefits (values (run props events))) ≤ 7)%nat.
Proof.
  assert (H : Forall (λ x, x ∈ benefitsOptions.*1)
                     (benefits (values (run props events)))).
  { unfold run. assert (H0 : Forall (λ x, x ∈ benefitsOptions.*1)
                                    (benefits (values mount))) by constructor.
    revert H0. generalize mount.
    induction events as [|e events IH]; intros st H0; [exact H0|].
    cbn [foldl]. now apply IH, benefits_known_step. }
  rewrite Forall_forall in H.
  assert (Hnd : NoDup (benefits (values (run props events)))).
  { apply NoDup_benefits_run, NoDup_nil_2. }
  split; [exact H|]. split; [exact Hnd|].
  change 7%nat with (length (benefitsOptions.*1)).
  now apply submseteq_length, NoDup_submseteq.
Qed.

(** X14: the check boxes do not interfere: clicking two of them in either
    order gives collections with the same members, rearrangements of each
    other when the collection had no duplicate, and the very same list when
    both ids were members. *)
Theorem toggles_commute (a b : string) (value : list string) :
  (∀ x, x ∈ toggle a (toggle b value) ↔ x ∈ toggle b (toggle a value))
  ∧ (NoDup value → toggle a (toggle b value) ≡ₚ toggle b (toggle a value))
  ∧ (a ∈ value → b ∈ value →
     toggle a (toggle b value) = toggle b (toggle a value)).
Proof.
  assert (Hmem : ∀ x, x ∈ toggle a (toggle b value)
                      ↔ x ∈ toggle b (toggle a value)).
  { intros x. repeat (case_decide || rewrite elem_of_toggle);
      subst; try congruence; tauto. }
  split; [exact Hmem|]. split.
  - intros Hnd. apply NoDup_Permutation; [| |exact Hmem];
      now apply NoDup_toggle, NoDup_toggle.
  - intros Ha Hb. destruct (decide (a = b)) as [->|Hne]; [reflexivity|].
    rewrite (toggle_present b value Hb), (toggle_present a value Ha).
    rewrite !toggle_present
      by (apply list_elem_of_filter; split; [congruence|assumption]).
    rewrite !list_filter_filter. apply list_filter_iff. intros x. tauto.
Qed.

Lemma length_filter_remove (id : string) (value : list string) :
  NoDup value → id ∈ value →
  length (filter (λ v, v ≠ id) value) = Nat.pred (length value).
Proof.
  induction 1 as [|x l Hx Hnd IH]; intros Hin; [now apply elem_of_nil in Hin|].
  apply elem_of_cons in Hin as [<-|Hin].
  - rewrite filter_cons_False by (intros H; now apply H).
    now rewrite filter_other_absent.
  - rewrite filter_cons_True by (intros ->; contradiction).
    cbn [length]. rewrite IH by exact Hin.
    destruct l; [now apply elem_of_nil in Hin|reflexivity].
Qed.

(** X15: on a collection without duplicates a click changes the number of
    benefits by exactly one: one more when the id was absent, one less when
    it was a member. *)
Theorem toggle_changes_size_by_one (id : string) (value : list string) :
  NoDup value →
  length (toggle id value)
  = if includes value id then Nat.pred (length value) else S (length value).
Proof.
  intros Hnd. unfold includes. destruct (decide (id ∈ value)) as [Hin|Hout].
  - rewrite bool_decide_eq_true_2, toggle_present by exact Hin.
    now apply length_filter_remove.
  - rewrite bool_decide_eq_false_2, toggle_absent by exact Hout.
    rewrite length_app. cbn [length]. lia.
Qed.

Lemma toggle_changes_size_by_one_witness :
  length (toggle "no-resume" ["students-ok"; "no-resume"]) = 1%nat.
Proof.
  rewrite (toggle_changes_size_by_one "no-resume" ["students-ok"; "no-resume"]).
  - reflexivity.
  - repeat constructor; rewrite ?elem_of_cons, ?elem_of_nil;
      intros H; repeat destruct H as [H|H]; (discriminate H || exact H).
Defined.

(** ** The calendar over a session *)

(** X17: which days the calendar offers, at any time [tn] of the day [dn]
    and with [maxDate] computed at any time [tr] of the day [dr] of the last
    render: a day is selectable exactly when it is at most 60 days after
    [dr] and after [dn]; only at midnight sharp, when [tn] is 0, the day
    [dn] itself is selectable too. *)
Theorem calendar_days_at_any_time (dn dr tn tr day : Z) :
  (0 ≤ tn < msPerDay)%Z →
  (0 ≤ tr < msPerDay)%Z →
  calendar_disabled (startOfDay dn + tn) (maxDate (startOfDay dr + tr))
                    (startOfDay day)
  = negb ((if decide (tn = 0%Z) then (dn <=? day)%Z else (dn <? day)%Z)
          && (day <=? dr + 60)%Z).
Proof.
  intros Hn Hr.
  unfold calendar_disabled, maxDate, startOfDay, msPerDay in *.
  destruct (Z.ltb_spec (day * 86400000) (dn * 86400000 + tn)),
    (Z.ltb_spec (dr * 86400000 + tr + 60 * 86400000) (day * 86400000)),
    (Z.leb_spec day (dr + 60));
    (destruct (decide (tn = 0%Z)) as [Htn|Htn];
     [destruct (Z.leb_spec dn day) | destruct (Z.ltb_spec dn day)]);
    cbn; try reflexivity; lia.
Qed.

Lemma calendar_days_at_any_time_witness :
  calendar_disabled (startOfDay 20000 + 0) (maxDate (startOfDay 20000 + 0))
                    (startOfDay 20000)
  = false.
Proof.
  rewrite (calendar_days_at_any_time 20000 20000 0 0 20000).
  - reflexivity.
  - unfold msPerDay. lia.
  - unfold msPerDay. lia.
Defined.

Lemma step_deadline props st e :
  applicationDeadline (values (step props st e))
  = match e with
    | PickDay rendered now day =>
        if calendar_disabled now (maxDate rendered) (startOfDay day)
        then applicationDeadline (values st)
        else if bool_decide
                  (applicationDeadline (values st) = Some (startOfDay day))
             then None
             else Some (startOfDay day)
    | Submit =>
        if submit_withheld st then applicationDeadline (values st)
        else if Zod.isValid (formSchema (values st))
             then None else applicationDeadline (values st)
    | _ => applicationDeadline (values st)
    end.
Proof.
  destruct e as [f s|v|parsed|parsed|id|rendered now day|]; cbn [step].
  - now destruct f.
  - reflexivity.
  - now destruct (showCustomAge st).
  - now destruct (showCustomAge st).
  - now destruct (bool_decide _).
  - destruct (calendar_disabled _ _ _); [reflexivity|].
    now destruct (bool_decide _).
  - destruct (submit_withheld st); [reflexivity|]. unfold handleSubmit.
    destruct (Zod.isValid (formSchema (values st))) eqn:Hv.
    + now rewrite (resolver_valid _ Hv).
    + now rewrite (resolver_invalid _ Hv).
Qed.

(** X16: a deadline the form holds was picked in the calendar during the
    session, by a click on a day that was not disabled at that moment: it
    is the midnight of that day, not before the moment of the click and at
    most 60 days after the render that computed [maxDate].  No other
    operation sets a deadline. *)
Theorem stored_deadline_was_selectable props events t :
  applicationDeadline (values (run props events)) = Some t →
  ∃ rendered now day,
    PickDay rendered now day ∈ events
    ∧ t = startOfDay day
    ∧ calendar_disabled now (maxDate rendered) t = false
    ∧ (now ≤ t ≤ rendered + 60 * msPerDay)%Z.
Proof.
  revert t. induction events as [|e events IH] using rev_ind; intros t.
  { discriminate. }
  unfold run. rewrite foldl_app. cbn [foldl]. fold (run props events).
  rewrite step_deadline.
  assert (Hold : applicationDeadline (values (run props events)) = Some t →
                 ∃ rendered now day,
                   PickDay rendered now day ∈ events ++ [e]
                   ∧ t = startOfDay day
                   ∧ calendar_disabled now (maxDate rendered) t = false
                   ∧ (now ≤ t ≤ rendered + 60 * msPerDay)%Z).
  { intros H. destruct (IH t H) as (rendered & now & day & Hin & Hrest).
    exists rendered, now, day. split; [|exact Hrest].
    apply elem_of_app. now left. }
  destruct e as [f s|v|parsed|parsed|id|rendered now day|]; try exact Hold.
  - destruct (calendar_disabled now (maxDate rendered) (startOfDay day))
      eqn:E; [exact Hold|].
    destruct (bool_decide _); [discriminate|].
    intros [= <-]. exists rendered, now, day.
    split; [apply elem_of_app; right; apply list_elem_of_here|].
    split; [reflexivity|]. split; [exact E|].
    unfold calendar_disabled, maxDate in E.
    apply orb_false_iff in E as [E1%Z.ltb_ge E2%Z.ltb_ge]. lia.
  - destruct (submit_withheld _); [exact Hold|].
    destruct (Zod.isValid _); [discriminate|exact Hold].
Qed.

Lemma stored_deadline_was_selectable_witness :
  ∃ rendered now day,
    PickDay rendered now day
      ∈ [PickDay (startOfDay 19999 + 3600000) (startOfDay 20000 + 43200000)
                 20010]
    ∧ startOfDay 20010 = startOfDay day
    ∧ calendar_disabled now (maxDate rendered) (startOfDay 20010) = false
    ∧ (now ≤ startOfDay 20010 ≤ rendered + 60 * msPerDay)%Z.
Proof.
  apply (stored_deadline_was_selectable FindJobs_props
           [PickDay (startOfDay 19999 + 3600000)
                    (startOfDay 20000 + 43200000) 20010]
           (startOfDay 20010)).
  reflexivity.
Defined.

(** ** The contact number, once more *)

Lemma viber_spec_digits s :
  viber_spec s = true →
  forallb decimal_digit (list_ascii_of_string s) = true.
Proof.
  unfold viber_spec. destruct s as [|c0 [|c1 rest]]; try discriminate.
  - destruct c0 as [[] [] [] [] [] [] [] []]; discriminate.
  - destruct c0 as [[] [] [] [] [] [] [] []]; try discriminate.
    destruct c1 as [[] [] [] [] [] [] [] []]; try discriminate.
    rewrite !andb_true_iff. intros [[H _] _]. exact H.
Qed.

(** X18: the contact number is taken as typed, nothing is trimmed or
    stripped: a text with any character that is not a decimal digit, a
    blank, a dash or a plus sign of a country code for instance, is
    rejected. *)
Theorem viberNumber_rejects_any_non_digit s c :
  c ∈ list_ascii_of_string s →
  decimal_digit c = false →
  Zod.isValid (viberNumber_schema s) = false.
Proof.
  intros Hc Hd. unfold viberNumber_schema.
  rewrite isValid_string_regex, viber_regex_spec.
  destruct (viber_spec s) eqn:E; [|reflexivity].
  apply viber_spec_digits in E. rewrite forallb_forall in E.
  apply list_elem_of_In in Hc. rewrite (E c Hc) in Hd. discriminate.
Qed.

Lemma viberNumber_rejects_any_non_digit_witness :
  Zod.isValid (viberNumber_schema "09 12345678") = false.
Proof.
  apply (viberNumber_rejects_any_non_digit "09 12345678" " ").
  - apply list_elem_of_In. cbn. tauto.
  - reflexivity.
Defined.

(** ** Many clicks, and entering a whole draft *)

Lemma includes_toggle (id x : string) (value : list string) :
  includes (toggle id value) x
  = if decide (x = id) then negb (includes value x) else includes value x.
Proof.
  unfold includes. pose proof (elem_of_toggle id x value) as H.
  destruct (decide (x = id)) as [->|Hne].
  - destruct (decide (id ∈ value)) as [Hin|Hout].
    + rewrite (bool_decide_eq_true_2 _ Hin).
      apply bool_decide_eq_false_2. tauto.
    + rewrite (bool_decide_eq_false_2 _ Hout).
      apply bool_decide_eq_true_2. tauto.
  - apply bool_decide_ext. exact H.
Qed.

(** X19: after any series of clicks a check box is ticked exactly when the
    number of clicks on it has changed its state an odd number of times:
    ticked before and clicked an even number of times, or not ticked before
    and clicked an odd number of times. *)
Theorem ticked_iff_clicked_odd_times (ids value : list string) (x : string) :
  includes (clicks ids value) x
  = xorb (includes value x) (Nat.odd (length (filter (λ id, id = x) ids))).
Proof.
  revert value. induction ids as [|a ids IH]; intros value.
  { cbn. now rewrite xorb_false_r. }
  unfold clicks in *. cbn [foldl]. rewrite IH, includes_toggle.
  destruct (decide (a = x)) as [->|Hne].
  - rewrite filter_cons_True, decide_True by reflexivity. cbn [length].
    rewrite Nat.odd_succ, <- Nat.negb_odd.
    now destruct (includes value x), (Nat.odd _).
  - rewrite filter_cons_False, decide_False by congruence. reflexivity.
Qed.




